(** * AddressInput: the address / name resolution component

    Shallow embedding of [AddressInput] of
    [src/ui/components/Input/index.tsx]: the React state of the component,
    [resetState], [handleInputAddress], the promise chain attached to
    [wallet.queryDomainInfo] and the [useEffect] that reports the valid
    address to [onAddressInputChange].

    Modelling conventions.
    - A JavaScript string is a [string]; it is falsy exactly when empty.
    - A JavaScript number holding a confirmation count is a [Z], printed by
      a template literal in decimal.
    - The component state is a record; a [setX] call overwrites one field.
      Every setter of the source is called with a value (never with an
      updater function), so applying the calls in order gives the state of
      the next render.
    - [resetState] and [handleInputAddress] are closures created by a render:
      the state variables they read are those of that render.  The render
      snapshot is an explicit argument [r].  The component is rendered after
      every event, so a keystroke is handled by the closure of the current
      state, while the promise callbacks of a lookup keep the snapshot of
      the render in which the keystroke was handled.
    - Calls to collaborators (address validator, resolver, the
      [onAddressInputChange] callback) are recorded in a trace. *)

From Stdlib Require Import String Ascii ZArith List Bool Lia DecimalString.
From Stdlib Require DecimalFacts DecimalPos DecimalZ.
Import ListNotations.
Open Scope string_scope.

(** ** JavaScript values used by the component *)

Module Js.

(** Truthiness of a string: [if (s)] holds when [s] is not empty. *)
Definition truthy (s : string) : bool := negb (String.eqb s "").

(** [a || b] on strings. *)
Definition or_else (a b : string) : string := if truthy a then a else b.

(** [`${n}`] for an integral number. *)
Definition string_of_number (n : Z) : string :=
  NilZero.string_of_int (Z.to_int n).

(** [xs.includes(x)] on an array of strings. *)
Definition includes (xs : list string) (x : string) : bool :=
  existsb (String.eqb x) xs.

(** [s] occurs in [t] as a contiguous run of characters. *)
Fixpoint contains (s t : string) : bool :=
  prefix s t ||
  match t with
  | EmptyString => false
  | String _ t' => contains s t'
  end.

(** A settled promise: fulfilled with a value, or rejected with an [Error]
    of which only [err.message] is read. *)
Inductive Settled (A : Type) : Type :=
| Fulfilled (v : A)
| Rejected (message : string).
Arguments Fulfilled {A} v.
Arguments Rejected {A} message.

End Js.
Import Js.

(** ** Data *)

(** Modelled from the spec: the [Inscription] type of [@/shared/types] is not
    part of the sources at hand.  The component reads [address] (which may
    be missing at run time, hence the [|| ''] of the source) and
    [utxoConfirmation]; the remaining content is kept as an opaque reference. *)
Record Inscription : Type := {
  address : option string;
  utxoConfirmation : Z;
  inscriptionRef : string
}.

(** Modelled from the spec: the value returned by [getSatsName] of
    [@/shared/lib/satsname-utils], a label and a suffix. Only [suffix] is
    read by the component. *)
Record SatsName : Type := {
  label : string;
  suffix : string
}.

(** What the component imports and does not define: the two policy
    constants of [@/shared/constant], the name parser, the address checker
    of bitcore, and the two built-in string functions it applies to the
    input. [encodeURIComponent] stands for the built-in on the texts it can
    encode; on a text with a lone surrogate the built-in throws, a case that
    the model leaves out. *)
Record Env : Type := {
  SUPPORTED_DOMAINS : list string;
  SAFE_DOMAIN_CONFIRMATION : Z;
  getSatsName : string -> option SatsName;
  isValid : string -> bool;
  toLowerCase : string -> string;
  encodeURIComponent : string -> string
}.

(** The [useState] cells of [AddressInput]. *)
Record State : Type := {
  validAddress : string;
  parseAddress : string;
  parseError : string;
  formatError : string;
  inputVal : string;
  inscription : option Inscription;
  parseName : string;
  searching : bool
}.

(** The argument of [onAddressInputChange]. *)
Record AddressInputChange : Type := {
  ch_address : string;
  ch_domain : string;
  ch_inscription : option Inscription
}.

(** Calls that leave the component. *)
Inductive Call : Type :=
| CallIsValid (text : string)
| CallQueryDomainInfo (encodedName : string)
| CallOnAddressInputChange (params : AddressInputChange).

(** A lookup in flight: the promise returned by [queryDomainInfo] together
    with what its [then]/[catch]/[finally] callbacks have captured, namely
    the render snapshot read by [resetState], [inputAddress] and
    [satsname.suffix].  [l_keystroke] is bookkeeping for the statements
    below (the number of the keystroke that started the lookup); no code
    path reads it. *)
Record Lookup : Type := {
  l_snapshot : State;
  l_inputAddress : string;
  l_suffix : string;
  l_keystroke : nat
}.

(** The component together with its environment: the state, the lookups not
    yet settled, the calls made so far (oldest first), and the number of
    keystrokes handled so far (bookkeeping, as [l_keystroke]). *)
Record World : Type := {
  st : State;
  inflight : list Lookup;
  trace : list Call;
  keystrokes : nat
}.

(** ** A state monad over [World] *)

Definition M (A : Type) : Type := World -> A * World.

Definition ret {A : Type} (a : A) : M A := fun w => (a, w).

Definition bind {A B : Type} (m : M A) (k : A -> M B) : M B :=
  fun w => let (a, w') := m w in k a w'.

Notation "x <- m ;; k" := (bind m (fun x => k))
  (at level 61, m at next level, right associativity).
Notation "m ;; k" := (bind m (fun _ => k))
  (at level 61, right associativity).

Definition exec {A : Type} (m : M A) (w : World) : World := snd (m w).

Definition when (b : bool) (m : M unit) : M unit :=
  if b then m else ret tt.

Definition modify (f : State -> State) : M unit :=
  fun w => (tt, {| st := f (st w); inflight := inflight w;
                   trace := trace w; keystrokes := keystrokes w |}).

Definition call (c : Call) : M unit :=
  fun w => (tt, {| st := st w; inflight := inflight w;
                   trace := (trace w ++ [c])%list; keystrokes := keystrokes w |}).

(** The setters returned by [useState]: [setX v] overwrites cell [X]. *)
Definition withValidAddress (v : string) (s : State) : State :=
  {| validAddress := v; parseAddress := parseAddress s;
     parseError := parseError s; formatError := formatError s;
     inputVal := inputVal s; inscription := inscription s;
     parseName := parseName s; searching := searching s |}.

Definition setValidAddress (v : string) : M unit := modify (withValidAddress v).

Definition withParseAddress (v : string) (s : State) : State :=
  {| validAddress := validAddress s; parseAddress := v;
     parseError := parseError s; formatError := formatError s;
     inputVal := inputVal s; inscription := inscription s;
     parseName := parseName s; searching := searching s |}.

Definition setParseAddress (v : string) : M unit := modify (withParseAddress v).

Definition withParseError (v : string) (s : State) : State :=
  {| validAddress := validAddress s; parseAddress := parseAddress s;
     parseError := v; formatError := formatError s;
     inputVal := inputVal s; inscription := inscription s;
     parseName := parseName s; searching := searching s |}.

Definition setParseError (v : string) : M unit := modify (withParseError v).

Definition withFormatError (v : string) (s : State) : State :=
  {| validAddress := validAddress s; parseAddress := parseAddress s;
     parseError := parseError s; formatError := v;
     inputVal := inputVal s; inscription := inscription s;
     parseName := parseName s; searching := searching s |}.

Definition setFormatError (v : string) : M unit := modify (withFormatError v).

Definition withInputVal (v : string) (s : State) : State :=
  {| validAddress := validAddress s; parseAddress := parseAddress s;
     parseError := parseError s; formatError := formatError s;
     inputVal := v; inscription := inscription s;
     parseName := parseName s; searching := searching s |}.

Definition setInputVal (v : string) : M unit := modify (withInputVal v).

Definition withInscription (v : option Inscription) (s : State) : State :=
  {| validAddress := validAddress s; parseAddress := parseAddress s;
     parseError := parseError s; formatError := formatError s;
     inputVal := inputVal s; inscription := v;
     parseName := parseName s; searching := searching s |}.

Definition setInscription (v : option Inscription) : M unit := modify (withInscription v).

Definition withParseName (v : string) (s : State) : State :=
  {| validAddress := validAddress s; parseAddress := parseAddress s;
     parseError := parseError s; formatError := formatError s;
     inputVal := inputVal s; inscription := inscription s;
     parseName := v; searching := searching s |}.

Definition setParseName (v : string) : M unit := modify (withParseName v).

Definition withSearching (v : bool) (s : State) : State :=
  {| validAddress := validAddress s; parseAddress := parseAddress s;
     parseError := parseError s; formatError := formatError s;
     inputVal := inputVal s; inscription := inscription s;
     parseName := parseName s; searching := v |}.

Definition setSearching (v : bool) : M unit := modify (withSearching v).

(** ** The component *)

(** [resetState], as created by the render whose state is [r]. *)
Definition resetState (r : State) : M unit :=
  when (truthy (parseError r)) (setParseError "") ;;
  when (truthy (parseAddress r)) (setParseAddress "") ;;
  when (truthy (formatError r)) (setFormatError "") ;;
  when (truthy (validAddress r)) (setValidAddress "") ;;
  when (match inscription r with Some _ => true | None => false end)
       (setInscription None) ;;
  setParseName "".

(** The loop of [handleInputAddress] that joins the names: [i] is the loop
    index, [n] is [names.length], [rest] holds [names[i]], [names[i+1]], ... *)
Fixpoint joinNames (n i : nat) (rest : list string) (str : string) : string :=
  match rest with
  | [] => str
  | name :: rest' =>
      let str :=
        if Nat.eqb i 0 then str
        else if Nat.ltb i (n - 1) then str ++ ", "
        else str ++ " and " in
      joinNames n (S i) rest' (str ++ name)
  end.

Definition supportedMessage (domains : list string) : string :=
  let names := map (fun v => "." ++ v) domains in
  let str := joinNames (length names) 0 names "" in
  "Currently only " ++ str ++ " are supported.".

(** The text shown while the record lacks confirmations; the denominator is
    the literal of the source. *)
Definition unconfirmedMessage (confirmations : Z) : string :=
  "This domain has been transferred or inscribed recently. Please wait for block confirmations ("
    ++ string_of_number confirmations ++ "/3).".

(** The promise combinators used on the result of [queryDomainInfo]. *)
Definition then_ {A B : Type} (f : A -> M B) (p : Settled A) : M (Settled B) :=
  match p with
  | Fulfilled v => b <- f v ;; ret (Fulfilled b)
  | Rejected e => ret (Rejected e)
  end.

Definition catch_ {A : Type} (g : string -> M A) (p : Settled A) : M (Settled A) :=
  match p with
  | Fulfilled v => ret (Fulfilled v)
  | Rejected e => a <- g e ;; ret (Fulfilled a)
  end.

Definition finally_ {A : Type} (h : M unit) (p : Settled A) : M (Settled A) :=
  h ;; ret p.

Section Controller.

Variable env : Env.

(** [wallet.queryDomainInfo(encodedName)]: the call is recorded and the
    returned promise, with the callbacks attached to it, is in flight. *)
Definition queryDomainInfo (encodedName : string) (l : Lookup) : M unit :=
  call (CallQueryDomainInfo encodedName) ;;
  fun w => (tt, {| st := st w; inflight := (inflight w ++ [l])%list;
                   trace := trace w; keystrokes := keystrokes w |}).

Definition currentKeystroke : M nat := fun w => (keystrokes w, w).

(** [handleInputAddress], as created by the render whose state is [r]. The
    number [k] stored with the lookup is the bookkeeping of [Lookup]. *)
Definition handleInputAddress (r : State) (inputAddress : string) : M unit :=
  setInputVal inputAddress ;;
  resetState r ;;
  let teststr := toLowerCase env inputAddress in
  match getSatsName env teststr with
  | Some satsname =>
      if includes (SUPPORTED_DOMAINS env) (suffix satsname) then
        setSearching true ;;
        k <- currentKeystroke ;;
        queryDomainInfo (encodeURIComponent env inputAddress)
          {| l_snapshot := r; l_inputAddress := inputAddress;
             l_suffix := suffix satsname; l_keystroke := k |}
      else
        setFormatError (supportedMessage (SUPPORTED_DOMAINS env))
  | None =>
      call (CallIsValid inputAddress) ;;
      let isValid := isValid env inputAddress in
      if negb isValid then
        setFormatError "Recipient address is invalid"
      else
        setValidAddress inputAddress
  end.

(** The callback given to [.then]. *)
Definition onFulfilled (l : Lookup) (result : option Inscription) : M unit :=
  resetState (l_snapshot l) ;;
  match result with
  | None => setParseError (l_inputAddress l ++ " does not exist")
  | Some inscription =>
      setInscription (Some inscription) ;;
      if (utxoConfirmation inscription <? SAFE_DOMAIN_CONFIRMATION env)%Z then
        setParseError (unconfirmedMessage (utxoConfirmation inscription))
      else
        let address :=
          match address inscription with
          | Some a => or_else a ""
          | None => ""
          end in
        setParseAddress address ;;
        setValidAddress address ;;
        setParseName (l_suffix l)
  end.

(** The callback given to [.catch]. *)
Definition onRejected (l : Lookup) (message : string) : M unit :=
  let errMsg := message ++ " for " ++ l_inputAddress l in
  setFormatError errMsg.

(** The callback given to [.finally]. *)
Definition onFinally : M unit := setSearching false.

(** The whole chain [.then(...).catch(...).finally(...)], run when the
    promise of lookup [l] settles as [p]; the result is how the promise
    returned by [.finally] settles. *)
Definition settle (l : Lookup) (p : Settled (option Inscription)) : M (Settled unit) :=
  p1 <- then_ (onFulfilled l) p ;;
  p2 <- catch_ (onRejected l) p1 ;;
  finally_ onFinally p2.

(** What the effect hands to [onAddressInputChange]. *)
Definition changeOf (s : State) : AddressInputChange :=
  {| ch_address := validAddress s;
     ch_domain := if truthy (parseAddress s) then inputVal s else "";
     ch_inscription := inscription s |}.

(** [useEffect(..., [validAddress])] at the render that follows an event:
    [prev] is the state of the previous render. *)
Definition useEffect (prev : State) : M unit :=
  fun w =>
    if String.eqb (validAddress prev) (validAddress (st w)) then (tt, w)
    else call (CallOnAddressInputChange (changeOf (st w))) w.

(** ** Events *)

Inductive Event : Type :=
| Keystroke (text : string)
| Settles (i : nat) (p : Settled (option Inscription)).

Fixpoint removeAt {A : Type} (i : nat) (xs : list A) : list A :=
  match xs, i with
  | [], _ => []
  | _ :: xs', O => xs'
  | x :: xs', S i' => x :: removeAt i' xs'
  end.

Definition getState : M State := fun w => (st w, w).

Definition countKeystroke : M unit :=
  fun w => (tt, {| st := st w; inflight := inflight w;
                   trace := trace w; keystrokes := S (keystrokes w) |}).

Definition takeLookup (i : nat) : M (option Lookup) :=
  fun w => (nth_error (inflight w) i,
            {| st := st w; inflight := removeAt i (inflight w);
               trace := trace w; keystrokes := keystrokes w |}).

(** One event followed by the render it causes. A keystroke is handled by
    the handler of the current render; the [i]-th lookup in flight settles
    and runs its chain. *)
Definition dispatch (e : Event) : M unit :=
  r <- getState ;;
  match e with
  | Keystroke text =>
      countKeystroke ;;
      handleInputAddress r text
  | Settles i p =>
      l <- takeLookup i ;;
      match l with
      | Some l => settle l p ;; ret tt
      | None => ret tt
      end
  end ;;
  useEffect r.

Fixpoint run (es : list Event) : M unit :=
  match es with
  | [] => ret tt
  | e :: es' => dispatch e ;; run es'
  end.

End Controller.

(** The first render, from the [addressInputData] prop; effects run once on
    mount. *)
Definition initialState (address domain : string) : State :=
  {| validAddress := address;
     parseAddress := if truthy domain then address else "";
     parseError := "";
     formatError := "";
     inputVal := or_else domain address;
     inscription := None;
     parseName := "";
     searching := false |}.

Definition mount (address domain : string) : World :=
  {| st := initialState address domain;
     inflight := [];
     trace := [CallOnAddressInputChange (changeOf (initialState address domain))];
     keystrokes := 0 |}.

(** ** Vocabulary of the statements *)

(** The calls made between two worlds of one execution. *)
Definition callsSince (before after : World) : list Call :=
  skipn (length (trace before)) (trace after).

Definition isValidatorCall (c : Call) : bool :=
  match c with CallIsValid _ => true | _ => false end.

Definition isResolverCall (c : Call) : bool :=
  match c with CallQueryDomainInfo _ => true | _ => false end.

(** A lookup is superseded when a keystroke was handled after the one that
    started it. *)
Definition superseded (l : Lookup) (w : World) : Prop :=
  l_keystroke l <> keystrokes w.

(** [inscription.address || ''] read as a function of the record. *)
Definition addressOrEmpty (i : Inscription) : string :=
  match address i with
  | Some a => a
  | None => ""
  end.

(** The state left by [resetState] of snapshot [r] run on state [s]: a cell
    is cleared when the snapshot holds a truthy value for it. *)
Definition resetOf (r s : State) : State :=
  {| validAddress := if truthy (validAddress r) then "" else validAddress s;
     parseAddress := if truthy (parseAddress r) then "" else parseAddress s;
     parseError := if truthy (parseError r) then "" else parseError s;
     formatError := if truthy (formatError r) then "" else formatError s;
     inputVal := inputVal s;
     inscription := match inscription r with
                    | Some _ => None
                    | None => inscription s
                    end;
     parseName := "";
     searching := searching s |}.

(** Modelled from the spec: the value of [SAFE_DOMAIN_CONFIRMATION], which
    is defined in [@/shared/constant] and is not in the sources at hand. The
    scenarios of the specification take 3, and 3 is the denominator that the
    waiting message of the component prints. *)
Definition safeConfirmations : Z := 3.

(** The neutral state: nothing resolved, no error, no record; only the input
    text and the searching flag carry information. *)
Definition cleared (text : string) (busy : bool) : State :=
  {| validAddress := ""; parseAddress := ""; parseError := "";
     formatError := ""; inputVal := text; inscription := None;
     parseName := ""; searching := busy |}.

(** The list of names as the specification words it: joined with commas and
    a final "and". *)
Fixpoint joinAnd (names : list string) : string :=
  match names with
  | [] => ""
  | a :: rest =>
      match rest with
      | [] => a
      | [b] => a ++ " and " ++ b
      | _ :: _ :: _ => a ++ ", " ++ joinAnd rest
      end
  end.

(** What follows the first name in [joinAnd]. *)
Fixpoint joinTail (rest : list string) : string :=
  match rest with
  | [] => ""
  | [b] => " and " ++ b
  | b :: rest' => ", " ++ b ++ joinTail rest'
  end.

(** ** A concrete environment

    Used to run the component on examples.  The constants and the parser are
    not in the sources at hand and bitcore is a third-party library: the
    theorems below hold for every [Env], the examples pick this one. *)

Module Sample.

Definition lowerAscii (c : ascii) : ascii :=
  let n := nat_of_ascii c in
  if (Nat.leb 65 n && Nat.leb n 90)%bool then ascii_of_nat (n + 32) else c.

(** [toLowerCase] on ASCII text. *)
Fixpoint toLowerCase (s : string) : string :=
  match s with
  | EmptyString => EmptyString
  | String c s' => String (lowerAscii c) (toLowerCase s')
  end.

Definition hexDigit (n : nat) : ascii :=
  if Nat.ltb n 10 then ascii_of_nat (48 + n) else ascii_of_nat (55 + n).

Definition unreserved (c : ascii) : bool :=
  let n := nat_of_ascii c in
  ((Nat.leb 65 n && Nat.leb n 90) || (Nat.leb 97 n && Nat.leb n 122)
   || (Nat.leb 48 n && Nat.leb n 57)
   || existsb (Nat.eqb n) [45; 95; 46; 33; 126; 42; 39; 40; 41])%bool.

(** [encodeURIComponent] on ASCII text. *)
Fixpoint encodeURIComponent (s : string) : string :=
  match s with
  | EmptyString => EmptyString
  | String c s' =>
      if unreserved c then String c (encodeURIComponent s')
      else String "%" (String (hexDigit (nat_of_ascii c / 16))
             (String (hexDigit (nat_of_ascii c mod 16)) (encodeURIComponent s')))
  end.

(** Splits at the first dot. *)
Fixpoint splitDot (s : string) : option (string * string) :=
  match s with
  | EmptyString => None
  | String c s' =>
      if Ascii.eqb c "." then Some ("", s')
      else match splitDot s' with
           | Some (a, b) => Some (String c a, b)
           | None => None
           end
  end.

(** Modelled from the spec: [getSatsName], the Name Syntax Parser, is not in
    the sources at hand; a string of the shape [<label>.<suffix>] with both
    parts non-empty gives a parsed name, any other string gives no match. *)
Definition getSatsName (s : string) : option SatsName :=
  match splitDot s with
  | Some (a, b) =>
      if (truthy a && truthy b)%bool then Some {| label := a; suffix := b |}
      else None
  | None => None
  end.

(** A stand-in for [bitcore.Address.isValid], for the examples only: it
    accepts the text starting with [bc1q] and, like the original, rejects
    the empty string. It does not follow the rules of bitcore, which checks
    the whole encoding and rejects the short texts used below. *)
Definition isValid (s : string) : bool := prefix "bc1q" s.

Definition env (safe : Z) : Env :=
  Build_Env ["sats"; "unicash"; "btc"] safe
            getSatsName isValid toLowerCase encodeURIComponent.

Definition record (owner : string) (confirmations : Z) : Inscription :=
  {| address := Some owner; utxoConfirmation := confirmations;
     inscriptionRef := "i0" |}.

(** The component mounted with no address, after the given events. *)
Definition after (safe : Z) (es : list Event) : World :=
  exec (run (env safe) es) (mount "" "").

End Sample.

(** The address last handed to [onAddressInputChange], if any. *)
Definition lastReported (calls : list Call) : option string :=
  fold_left (fun acc c =>
               match c with
               | CallOnAddressInputChange params => Some (ch_address params)
               | _ => acc
               end) calls None.

(** The lookup was started for an input whose lower-casing parses as a name
    with a supported suffix, and it has captured that suffix. *)
Definition lookupOfSupportedName (env : Env) (l : Lookup) : Prop :=
  exists sn,
    getSatsName env (toLowerCase env (l_inputAddress l)) = Some sn /\
    suffix sn = l_suffix l /\
    includes (SUPPORTED_DOMAINS env) (l_suffix l) = true.

(** A call of the resolver asks for the encoding of such an input. *)
Definition callForSupportedName (env : Env) (c : Call) : Prop :=
  match c with
  | CallQueryDomainInfo encodedName =>
      exists text sn,
        encodedName = encodeURIComponent env text /\
        getSatsName env (toLowerCase env text) = Some sn /\
        includes (SUPPORTED_DOMAINS env) (suffix sn) = true
  | _ => True
  end.

(** The recognised name is shown only next to a record with enough
    confirmations whose address is the valid and the parsed address. *)
Definition nameBacked (env : Env) (s : State) : Prop :=
  parseName s <> "" ->
  includes (SUPPORTED_DOMAINS env) (parseName s) = true /\
  exists insc,
    inscription s = Some insc /\
    (SAFE_DOMAIN_CONFIRMATION env <= utxoConfirmation insc)%Z /\
    validAddress s = addressOrEmpty insc /\
    parseAddress s = addressOrEmpty insc.

(** What holds of the address field after every event. *)
Definition Coherent (env : Env) (w : World) : Prop :=
  lastReported (trace w) = Some (validAddress (st w)) /\
  Forall (lookupOfSupportedName env) (inflight w) /\
  nameBacked env (st w) /\
  Forall (callForSupportedName env) (trace w).

(** The calls made by [handleInputAddress] itself on the given text. *)
Definition handlerCalls (env : Env) (text : string) : list Call :=
  match getSatsName env (toLowerCase env text) with
  | Some sn =>
      if includes (SUPPORTED_DOMAINS env) (suffix sn)
      then [CallQueryDomainInfo (encodeURIComponent env text)]
      else []
  | None => [CallIsValid text]
  end.

(** The call made by the effect, if any, between two renders. *)
Definition effectCalls (prev next : State) : list Call :=
  if String.eqb (validAddress prev) (validAddress next) then []
  else [CallOnAddressInputChange (changeOf next)].

(** The state in which the lookup of the latest keystroke leaves the
    component when nothing happened in between. *)
Definition resolvedState (env : Env) (text : string) (sn : SatsName)
    (p : Settled (option Inscription)) : State :=
  match p with
  | Rejected message =>
      withFormatError (message ++ " for " ++ text) (cleared text false)
  | Fulfilled None =>
      withParseError (text ++ " does not exist") (cleared text false)
  | Fulfilled (Some insc) =>
      if (utxoConfirmation insc <? SAFE_DOMAIN_CONFIRMATION env)%Z then
        withParseError (unconfirmedMessage (utxoConfirmation insc))
          (withInscription (Some insc) (cleared text false))
      else
        withParseName (suffix sn)
          (withValidAddress (addressOrEmpty insc)
             (withParseAddress (addressOrEmpty insc)
                (withInscription (Some insc) (cleared text false))))
  end.

(** * AmountInput

    The amount field of the same file: [handleInputAmount] keeps a typed
    value only when it has the shape of an amount, and an effect hands the
    kept value to [onAmountInputChange]. The component is modelled with its
    callback present (without it the source renders an empty [div] and has
    no state). The [disableDecimal] prop is read by the handler of the
    current render, so it comes with each event. *)

Module Amount.

(** [\d]: an ASCII digit. *)
Definition isDigit (c : ascii) : bool :=
  let n := nat_of_ascii c in (Nat.leb 48 n && Nat.leb n 57)%bool.

(** [[1-9]]. *)
Definition isNonZeroDigit (c : ascii) : bool :=
  let n := nat_of_ascii c in (Nat.leb 49 n && Nat.leb n 57)%bool.

(** [\d*$]: only digits up to the end of the text. *)
Fixpoint allDigits (s : string) : bool :=
  match s with
  | EmptyString => true
  | String c rest => (isDigit c && allDigits rest)%bool
  end.

(** [/^[1-9]\d*$/.test(value)]. *)
Definition testInteger (value : string) : bool :=
  match value with
  | EmptyString => false
  | String c rest => (isNonZeroDigit c && allDigits rest)%bool
  end.

(** [/^\d*\.?\d*$/.test(value)]: digits, then at most one dot, then digits
    up to the end. A digit is never a dot, so the greedy reading below
    decides the match. *)
Fixpoint testDecimal (value : string) : bool :=
  match value with
  | EmptyString => true
  | String c rest =>
      if isDigit c then testDecimal rest
      else if Ascii.eqb c "." then allDigits rest
      else false
  end.

(** The [useState] cells of [AmountInput]. *)
Record State : Type := {
  inputValue : string;
  validAmount : string
}.

Definition setValidAmount (v : string) (s : State) : State :=
  {| inputValue := inputValue s; validAmount := v |}.

Definition setInputValue (v : string) (s : State) : State :=
  {| inputValue := v; validAmount := validAmount s |}.

(** [handleInputAmount], with [value] standing for [e.target.value]. *)
Definition handleInputAmount (disableDecimal : bool) (value : string)
    (s : State) : State :=
  if disableDecimal then
    if (testInteger value || String.eqb value "")%bool then
      setInputValue value (setValidAmount value s)
    else s
  else
    if (testDecimal value || String.eqb value "")%bool then
      setInputValue value (setValidAmount value s)
    else s.

(** The component with the values handed to [onAmountInputChange] so far,
    oldest first. *)
Record World : Type := {
  st : State;
  reported : list string
}.

(** [useEffect(..., [validAmount])] at the render that follows an event. *)
Definition useEffect (prev : State) (w : World) : World :=
  if String.eqb (validAmount prev) (validAmount (st w)) then w
  else {| st := st w; reported := (reported w ++ [validAmount (st w)])%list |}.

(** A change event under the given [disableDecimal] prop, and the render
    that follows. *)
Definition dispatch (e : bool * string) (w : World) : World :=
  let r := st w in
  useEffect r {| st := handleInputAmount (fst e) (snd e) r;
                 reported := reported w |}.

Definition run (es : list (bool * string)) (w : World) : World :=
  fold_left (fun w e => dispatch e w) es w.

(** The first render; effects run once on mount. *)
Definition mount : World :=
  {| st := {| inputValue := ""; validAmount := "" |}; reported := [""] |}.

(** The text has the shape of an amount with decimals, said without the
    pattern: digits, optionally followed by a dot and digits. *)
Definition decimalShape (s : string) : Prop :=
  exists a b, allDigits a = true /\ allDigits b = true /\
              (s = a ++ b \/ s = a ++ "." ++ b).

(** No two neighbours of the list are equal. *)
Fixpoint noRepeat (xs : list string) : Prop :=
  match xs with
  | x :: ((y :: _) as rest) => x <> y /\ noRepeat rest
  | _ => True
  end.

(** What holds of the amount field after every event. *)
Definition Consistent (w : World) : Prop :=
  inputValue (st w) = validAmount (st w) /\
  testDecimal (validAmount (st w)) = true /\
  last (reported w) "?" = validAmount (st w) /\
  reported w <> [] /\
  Forall (fun v => testDecimal v = true) (reported w) /\
  noRepeat (reported w).

End Amount.

(** * PasswordInput

    The eye icon of the password field: [type] is the state cell, the icon
    rendered depends on it, and a click on an icon sets the other type. *)

Module Password.

Inductive InputType : Type := TypePassword | TypeText.

Inductive IconName : Type := EyeSlash | Eye.

Definition isPassword (t : InputType) : bool :=
  match t with TypePassword => true | TypeText => false end.

Definition isText (t : InputType) : bool :=
  match t with TypeText => true | TypePassword => false end.

(** The icons rendered for the state [t], in the order of the source. *)
Definition icons (t : InputType) : list IconName :=
  ((if isPassword t then [EyeSlash] else []) ++
   (if isText t then [Eye] else []))%list.

(** The [onClick] of each icon. *)
Definition onClick (icon : IconName) : InputType :=
  match icon with
  | EyeSlash => TypeText
  | Eye => TypePassword
  end.

(** The user clicks the icon that is on screen. *)
Definition clickRendered (t : InputType) : InputType :=
  match icons t with
  | icon :: _ => onClick icon
  | [] => t
  end.

Fixpoint clicks (n : nat) (t : InputType) : InputType :=
  match n with
  | O => t
  | S n' => clicks n' (clickRendered t)
  end.

End Password.

(** * Properties *)

(** ** Strings *)

Lemma append_assoc (a b c : string) : (a ++ b) ++ c = a ++ (b ++ c).
Proof.
  induction a as [|x a IH]; simpl; [reflexivity | now rewrite IH].
Qed.

Lemma append_nil_r (a : string) : a ++ "" = a.
Proof.
  induction a as [|x a IH]; simpl; congruence.
Qed.

Lemma prefix_append (s t : string) : prefix s (s ++ t) = true.
Proof.
  induction s as [|x s IH]; simpl.
  - now destruct t.
  - destruct (ascii_dec x x) as [_|ne]; [exact IH | now elim ne].
Qed.

Lemma contains_prefix (s t : string) : prefix s t = true -> contains s t = true.
Proof.
  intros H. destruct t; cbn [contains]; rewrite H; reflexivity.
Qed.

Lemma contains_append (s a b : string) : contains s (a ++ s ++ b) = true.
Proof.
  induction a as [|x a IH].
  - change ("" ++ s ++ b) with (s ++ b).
    apply contains_prefix, prefix_append.
  - cbn [append contains]. rewrite IH. apply orb_true_r.
Qed.

Lemma truthy_false (s : string) : truthy s = false -> s = "".
Proof.
  unfold truthy. intros H. apply negb_false_iff in H.
  now apply String.eqb_eq.
Qed.

Lemma truthy_true (s : string) : s <> "" -> truthy s = true.
Proof.
  unfold truthy. intros H. apply negb_true_iff. now apply String.eqb_neq.
Qed.

Lemma or_else_empty (a : string) : or_else a "" = a.
Proof.
  unfold or_else. destruct (truthy a) eqn:E; [reflexivity|].
  symmetry. now apply truthy_false.
Qed.

(** ** The names joined by the loop are the names joined as specified *)

Lemma joinNames_tail (rest : list string) :
  forall (i : nat) (str : string),
    joinNames (S i + length rest) (S i) rest str = str ++ joinTail rest.
Proof.
  induction rest as [|b rest IH]; intros i str.
  - symmetry. apply append_nil_r.
  - cbn [joinNames Nat.eqb].
    replace (S i + length (b :: rest)) with (S (S i) + length rest)
      by (cbn [length]; lia).
    rewrite IH. destruct rest as [|b' rest'].
    + destruct (Nat.ltb_spec (S i) (S (S i) + length (@nil string) - 1)) as [H|H];
        cbn [length] in H; [lia|].
      cbn [joinTail]. now rewrite append_nil_r, append_assoc.
    + destruct (Nat.ltb_spec (S i) (S (S i) + length (b' :: rest') - 1)) as [H|H];
        cbn [length] in H; [|lia].
      change (joinTail (b :: b' :: rest'))
        with (", " ++ b ++ joinTail (b' :: rest')).
      now rewrite !append_assoc.
Qed.

Lemma joinAnd_tail (a : string) (rest : list string) :
  joinAnd (a :: rest) = a ++ joinTail rest.
Proof.
  revert a. induction rest as [|b rest IH]; intros a.
  - symmetry. apply append_nil_r.
  - destruct rest as [|b' rest'].
    + reflexivity.
    + change (joinAnd (a :: b :: b' :: rest'))
        with (a ++ ", " ++ joinAnd (b :: b' :: rest')).
      rewrite IH. reflexivity.
Qed.

Lemma joinNames_joinAnd (names : list string) :
  joinNames (length names) 0 names "" = joinAnd names.
Proof.
  destruct names as [|a rest]; [reflexivity|].
  rewrite joinAnd_tail. cbn [joinNames Nat.eqb length].
  change (S (length rest)) with (1 + length rest).
  now rewrite joinNames_tail.
Qed.

Lemma joinTail_mentions (x : string) (rest : list string) :
  In x rest -> exists a b, joinTail rest = a ++ x ++ b.
Proof.
  induction rest as [|y rest IH]; intros Hin; [contradiction|].
  destruct Hin as [->|Hin].
  - destruct rest as [|z rest'].
    + exists " and ", "". cbn [joinTail]. now rewrite append_nil_r.
    + exists ", ", (joinTail (z :: rest')). reflexivity.
  - destruct rest as [|z rest']; [contradiction|].
    destruct (IH Hin) as (a & b & E).
    exists (", " ++ y ++ a), b.
    change (joinTail (y :: z :: rest')) with (", " ++ y ++ joinTail (z :: rest')).
    rewrite E. now rewrite !append_assoc.
Qed.

Lemma joinAnd_mentions (x : string) (names : list string) :
  In x names -> exists a b, joinAnd names = a ++ x ++ b.
Proof.
  destruct names as [|y rest]; intros Hin; [contradiction|].
  rewrite joinAnd_tail. destruct Hin as [->|Hin].
  - exists "", (joinTail rest). reflexivity.
  - destruct (joinTail_mentions x rest Hin) as (a & b & E).
    exists (y ++ a), b. rewrite E. now rewrite append_assoc.
Qed.

Lemma supportedMessage_joinAnd (domains : list string) :
  supportedMessage domains =
  "Currently only " ++ joinAnd (map (fun v => "." ++ v) domains)
    ++ " are supported.".
Proof.
  unfold supportedMessage. cbv zeta. now rewrite joinNames_joinAnd.
Qed.

(** ** [resetState] *)

Ltac unfold_m :=
  unfold exec, bind, ret, when, modify, call, getState, countKeystroke,
    takeLookup, currentKeystroke, queryDomainInfo, setValidAddress,
    setParseAddress, setParseError, setFormatError, setInputVal,
    setInscription, setParseName, setSearching in *.

Lemma resetState_run (r : State) (w : World) :
  resetState r w =
  (tt, {| st := resetOf r (st w); inflight := inflight w;
          trace := trace w; keystrokes := keystrokes w |}).
Proof.
  destruct w as [s fl tr k]. destruct s.
  unfold resetState, resetOf. unfold_m. cbn.
  destruct (truthy (parseError r)), (truthy (parseAddress r)),
    (truthy (formatError r)), (truthy (validAddress r)), (inscription r);
    reflexivity.
Qed.

(** Reset by the closure of the current render: every cell but the input
    text and the searching flag is neutral afterwards. *)
Lemma resetOf_current (s s' : State) :
  validAddress s' = validAddress s -> parseAddress s' = parseAddress s ->
  parseError s' = parseError s -> formatError s' = formatError s ->
  inscription s' = inscription s ->
  resetOf s s' = cleared (inputVal s') (searching s').
Proof.
  intros Hv Hp He Hf Hi. unfold resetOf, cleared. rewrite Hv, Hp, He, Hf, Hi.
  f_equal.
  - destruct (truthy (validAddress s)) eqn:E; [|apply truthy_false in E]; congruence.
  - destruct (truthy (parseAddress s)) eqn:E; [|apply truthy_false in E]; congruence.
  - destruct (truthy (parseError s)) eqn:E; [|apply truthy_false in E]; congruence.
  - destruct (truthy (formatError s)) eqn:E; [|apply truthy_false in E]; congruence.
  - destruct (inscription s); reflexivity.
Qed.

(** Reset by any closure of a state that is already neutral changes nothing
    but the recognised name. *)
Lemma resetOf_neutral (r s : State) :
  validAddress s = "" -> parseAddress s = "" -> parseError s = "" ->
  formatError s = "" -> inscription s = None ->
  resetOf r s = cleared (inputVal s) (searching s).
Proof.
  intros Hv Hp He Hf Hi. unfold resetOf, cleared. rewrite Hv, Hp, He, Hf, Hi.
  destruct (truthy (validAddress r)), (truthy (parseAddress r)),
    (truthy (parseError r)), (truthy (formatError r)), (inscription r);
    reflexivity.
Qed.

(** ** One keystroke *)

Section ControllerFacts.

Variable env : Env.

Lemma handleInputAddress_supported (r : State) (text : string) (sn : SatsName)
    (w : World) :
  getSatsName env (toLowerCase env text) = Some sn ->
  includes (SUPPORTED_DOMAINS env) (suffix sn) = true ->
  handleInputAddress env r text w =
  (tt, {| st := withSearching true (resetOf r (withInputVal text (st w)));
          inflight := (inflight w ++
                       [{| l_snapshot := r; l_inputAddress := text;
                           l_suffix := suffix sn;
                           l_keystroke := keystrokes w |}])%list;
          trace := (trace w ++
                    [CallQueryDomainInfo (encodeURIComponent env text)])%list;
          keystrokes := keystrokes w |}).
Proof.
  intros Hname Hsup. unfold handleInputAddress, bind.
  unfold setInputVal, modify at 1. rewrite resetState_run.
  rewrite Hname, Hsup. reflexivity.
Qed.

Lemma handleInputAddress_unsupported (r : State) (text : string) (sn : SatsName)
    (w : World) :
  getSatsName env (toLowerCase env text) = Some sn ->
  includes (SUPPORTED_DOMAINS env) (suffix sn) = false ->
  handleInputAddress env r text w =
  (tt, {| st := withFormatError (supportedMessage (SUPPORTED_DOMAINS env))
                  (resetOf r (withInputVal text (st w)));
          inflight := inflight w;
          trace := trace w;
          keystrokes := keystrokes w |}).
Proof.
  intros Hname Hsup. unfold handleInputAddress, bind.
  unfold setInputVal, modify at 1. rewrite resetState_run.
  rewrite Hname, Hsup. reflexivity.
Qed.

Lemma handleInputAddress_address (r : State) (text : string) (w : World) :
  getSatsName env (toLowerCase env text) = None ->
  handleInputAddress env r text w =
  (tt, {| st := (if isValid env text then withValidAddress text
                 else withFormatError "Recipient address is invalid")
                  (resetOf r (withInputVal text (st w)));
          inflight := inflight w;
          trace := (trace w ++ [CallIsValid text])%list;
          keystrokes := keystrokes w |}).
Proof.
  intros Hname. unfold handleInputAddress, bind.
  unfold setInputVal, modify at 1. rewrite resetState_run.
  rewrite Hname. destruct (isValid env text); reflexivity.
Qed.

(** ** One settled lookup *)

Lemma settle_rejected (l : Lookup) (message : string) (w : World) :
  settle env l (Rejected message) w =
  (Fulfilled tt,
   {| st := withSearching false
              (withFormatError (message ++ " for " ++ l_inputAddress l) (st w));
      inflight := inflight w; trace := trace w; keystrokes := keystrokes w |}).
Proof.
  reflexivity.
Qed.

Lemma settle_notFound (l : Lookup) (w : World) :
  settle env l (Fulfilled None) w =
  (Fulfilled tt,
   {| st := withSearching false
              (withParseError (l_inputAddress l ++ " does not exist")
                 (resetOf (l_snapshot l) (st w)));
      inflight := inflight w; trace := trace w; keystrokes := keystrokes w |}).
Proof.
  unfold settle, then_, onFulfilled, bind. rewrite resetState_run. reflexivity.
Qed.

Lemma settle_unconfirmed (l : Lookup) (i : Inscription) (w : World) :
  (utxoConfirmation i < SAFE_DOMAIN_CONFIRMATION env)%Z ->
  settle env l (Fulfilled (Some i)) w =
  (Fulfilled tt,
   {| st := withSearching false
              (withParseError (unconfirmedMessage (utxoConfirmation i))
                 (withInscription (Some i) (resetOf (l_snapshot l) (st w))));
      inflight := inflight w; trace := trace w; keystrokes := keystrokes w |}).
Proof.
  intros Hlt. apply Z.ltb_lt in Hlt.
  unfold settle, then_, onFulfilled, bind. rewrite resetState_run.
  unfold setInscription, modify at 1. rewrite Hlt. reflexivity.
Qed.

Lemma settle_confirmed (l : Lookup) (i : Inscription) (w : World) :
  (SAFE_DOMAIN_CONFIRMATION env <= utxoConfirmation i)%Z ->
  settle env l (Fulfilled (Some i)) w =
  (Fulfilled tt,
   {| st := withSearching false
              (withParseName (l_suffix l)
                 (withValidAddress (addressOrEmpty i)
                    (withParseAddress (addressOrEmpty i)
                       (withInscription (Some i)
                          (resetOf (l_snapshot l) (st w))))));
      inflight := inflight w; trace := trace w; keystrokes := keystrokes w |}).
Proof.
  intros Hge. apply Z.ltb_ge in Hge.
  unfold settle, then_, onFulfilled, bind. rewrite resetState_run.
  unfold setInscription, modify at 1. rewrite Hge.
  replace (match address i with Some a => or_else a "" | None => "" end)
    with (addressOrEmpty i)
    by (unfold addressOrEmpty; destruct (address i); [now rewrite or_else_empty | reflexivity]).
  reflexivity.
Qed.

(** The promise returned by [.finally] is never rejected: whatever the
    lookup gives, the chain ends fulfilled. *)
Lemma settle_fulfilled (l : Lookup) (p : Settled (option Inscription)) (w : World) :
  fst (settle env l p w) = Fulfilled tt.
Proof.
  destruct p as [[i|]|message].
  - destruct (Z.lt_ge_cases (utxoConfirmation i) (SAFE_DOMAIN_CONFIRMATION env)) as [H|H].
    + now rewrite settle_unconfirmed.
    + now rewrite settle_confirmed.
  - now rewrite settle_notFound.
  - reflexivity.
Qed.

End ControllerFacts.

(** ** Events and the render that follows *)

Section DispatchFacts.

Variable env : Env.

Lemma useEffect_st (r : State) (w : World) : st (exec (useEffect r) w) = st w.
Proof.
  unfold exec, useEffect. destruct (String.eqb _ _); reflexivity.
Qed.

Lemma useEffect_inflight (r : State) (w : World) :
  inflight (exec (useEffect r) w) = inflight w.
Proof.
  unfold exec, useEffect. destruct (String.eqb _ _); reflexivity.
Qed.

Lemma useEffect_trace (r : State) (w : World) :
  exists calls,
    trace (exec (useEffect r) w) = (trace w ++ calls)%list /\
    forall c, In c calls -> c = CallOnAddressInputChange (changeOf (st w)).
Proof.
  unfold exec, useEffect. destruct (String.eqb _ _).
  - exists []. split; [now rewrite app_nil_r | intros c []].
  - exists [CallOnAddressInputChange (changeOf (st w))]. split; [reflexivity|].
    intros c [<-|[]]. reflexivity.
Qed.

Lemma dispatch_keystroke (text : string) (w : World) :
  exec (dispatch env (Keystroke text)) w =
  exec (useEffect (st w))
    (exec (handleInputAddress env (st w) text) (exec countKeystroke w)).
Proof.
  unfold dispatch, exec, bind, getState, countKeystroke.
  destruct (handleInputAddress _ _ _ _). reflexivity.
Qed.

Lemma dispatch_settles (i : nat) (l : Lookup) (p : Settled (option Inscription))
    (w : World) :
  nth_error (inflight w) i = Some l ->
  exec (dispatch env (Settles i p)) w =
  exec (useEffect (st w))
    (exec (settle env l p)
       {| st := st w; inflight := removeAt i (inflight w);
          trace := trace w; keystrokes := keystrokes w |}).
Proof.
  intros H. unfold dispatch, exec, bind, getState, takeLookup. rewrite H.
  destruct (settle _ _ _ _). reflexivity.
Qed.

Lemma keystroke_st (text : string) (w : World) :
  st (exec (dispatch env (Keystroke text)) w) =
  match getSatsName env (toLowerCase env text) with
  | Some sn =>
      if includes (SUPPORTED_DOMAINS env) (suffix sn)
      then withSearching true (cleared text (searching (st w)))
      else withFormatError (supportedMessage (SUPPORTED_DOMAINS env))
             (cleared text (searching (st w)))
  | None =>
      if isValid env text
      then withValidAddress text (cleared text (searching (st w)))
      else withFormatError "Recipient address is invalid"
             (cleared text (searching (st w)))
  end.
Proof.
  assert (Hreset : resetOf (st w) (withInputVal text (st w)) =
                   cleared text (searching (st w)))
    by (now rewrite resetOf_current).
  rewrite dispatch_keystroke, useEffect_st. unfold exec, countKeystroke.
  destruct (getSatsName env (toLowerCase env text)) as [sn|] eqn:Hname.
  - destruct (includes (SUPPORTED_DOMAINS env) (suffix sn)) eqn:Hsup.
    + rewrite (handleInputAddress_supported env _ _ sn _ Hname Hsup).
      cbn [snd st]. now rewrite Hreset.
    + rewrite (handleInputAddress_unsupported env _ _ sn _ Hname Hsup).
      cbn [snd st]. now rewrite Hreset.
  - rewrite (handleInputAddress_address env _ _ _ Hname).
    cbn [snd st]. rewrite Hreset. now destruct (isValid env text).
Qed.

Lemma callsSince_app (w w' : World) (calls : list Call) :
  trace w' = (trace w ++ calls)%list -> callsSince w w' = calls.
Proof.
  intros H. unfold callsSince. rewrite H.
  rewrite skipn_app, skipn_all, Nat.sub_diag. reflexivity.
Qed.

(** The calls of one keystroke: those of the handler, then at most one call
    of [onAddressInputChange] made by the effect. *)
Lemma keystroke_calls (text : string) (w : World) :
  exists effects,
    callsSince w (exec (dispatch env (Keystroke text)) w) =
    (match getSatsName env (toLowerCase env text) with
     | Some sn =>
         if includes (SUPPORTED_DOMAINS env) (suffix sn)
         then [CallQueryDomainInfo (encodeURIComponent env text)]
         else []
     | None => [CallIsValid text]
     end ++ effects)%list /\
    existsb isValidatorCall effects = false /\
    existsb isResolverCall effects = false.
Proof.
  rewrite dispatch_keystroke.
  destruct (useEffect_trace (st w)
              (exec (handleInputAddress env (st w) text) (exec countKeystroke w)))
    as (effects & Htrace & Heff).
  exists effects. split; [|split].
  - apply callsSince_app. rewrite Htrace. unfold exec, countKeystroke.
    destruct (getSatsName env (toLowerCase env text)) as [sn|] eqn:Hname.
    + destruct (includes (SUPPORTED_DOMAINS env) (suffix sn)) eqn:Hsup.
      * rewrite (handleInputAddress_supported env _ _ sn _ Hname Hsup).
        cbn [snd trace]. now rewrite <- app_assoc.
      * rewrite (handleInputAddress_unsupported env _ _ sn _ Hname Hsup).
        reflexivity.
    + rewrite (handleInputAddress_address env _ _ _ Hname).
      cbn [snd trace]. now rewrite <- app_assoc.
  - apply not_true_is_false. intros H. apply existsb_exists in H.
    destruct H as (c & Hin & Hc). now rewrite (Heff c Hin) in Hc.
  - apply not_true_is_false. intros H. apply existsb_exists in H.
    destruct H as (c & Hin & Hc). now rewrite (Heff c Hin) in Hc.
Qed.

Lemma keystroke_inflight (text : string) (w : World) :
  inflight (exec (dispatch env (Keystroke text)) w) =
  (inflight w ++
   match getSatsName env (toLowerCase env text) with
   | Some sn =>
       if includes (SUPPORTED_DOMAINS env) (suffix sn)
       then [{| l_snapshot := st w; l_inputAddress := text;
                l_suffix := suffix sn; l_keystroke := S (keystrokes w) |}]
       else []
   | None => []
   end)%list.
Proof.
  rewrite dispatch_keystroke, useEffect_inflight. unfold exec, countKeystroke.
  destruct (getSatsName env (toLowerCase env text)) as [sn|] eqn:Hname.
  - destruct (includes (SUPPORTED_DOMAINS env) (suffix sn)) eqn:Hsup.
    + now rewrite (handleInputAddress_supported env _ _ sn _ Hname Hsup).
    + rewrite (handleInputAddress_unsupported env _ _ sn _ Hname Hsup).
      cbn [snd inflight]. now rewrite app_nil_r.
  - rewrite (handleInputAddress_address env _ _ _ Hname).
    cbn [snd inflight]. now rewrite app_nil_r.
Qed.

Lemma settles_st (i : nat) (l : Lookup) (p : Settled (option Inscription))
    (w : World) :
  nth_error (inflight w) i = Some l ->
  st (exec (dispatch env (Settles i p)) w) =
  st (snd (settle env l p
             {| st := st w; inflight := removeAt i (inflight w);
                trace := trace w; keystrokes := keystrokes w |})).
Proof.
  intros H. now rewrite (dispatch_settles i l p w H), useEffect_st.
Qed.

(** The calls of one settled lookup: at most one call of
    [onAddressInputChange], made by the effect with the new state. *)
Lemma settles_calls (i : nat) (l : Lookup) (p : Settled (option Inscription))
    (w : World) :
  nth_error (inflight w) i = Some l ->
  let w' := exec (dispatch env (Settles i p)) w in
  callsSince w w' =
  if String.eqb (validAddress (st w)) (validAddress (st w')) then []
  else [CallOnAddressInputChange (changeOf (st w'))].
Proof.
  intros H. cbv zeta. rewrite (dispatch_settles i l p w H).
  set (v := exec (settle env l p) _).
  assert (Htrace : trace v = trace w).
  { subst v. unfold exec. destruct p as [[insc|]|message].
    - destruct (Z.lt_ge_cases (utxoConfirmation insc) (SAFE_DOMAIN_CONFIRMATION env)).
      + now rewrite settle_unconfirmed.
      + now rewrite settle_confirmed.
    - now rewrite settle_notFound.
    - reflexivity. }
  rewrite useEffect_st. apply callsSince_app.
  unfold exec, useEffect.
  destruct (String.eqb (validAddress (st w)) (validAddress (st v))).
  - cbn [snd]. now rewrite app_nil_r.
  - cbn [snd call trace]. now rewrite Htrace.
Qed.

(** The lookup started by a keystroke is the last one in flight. *)
Lemma keystroke_lookup (text : string) (sn : SatsName) (w : World) :
  getSatsName env (toLowerCase env text) = Some sn ->
  includes (SUPPORTED_DOMAINS env) (suffix sn) = true ->
  nth_error (inflight (exec (dispatch env (Keystroke text)) w))
    (length (inflight w)) =
  Some {| l_snapshot := st w; l_inputAddress := text;
          l_suffix := suffix sn; l_keystroke := S (keystrokes w) |}.
Proof.
  intros Hname Hsup. rewrite keystroke_inflight, Hname, Hsup.
  rewrite nth_error_app2, Nat.sub_diag by lia. reflexivity.
Qed.

(** The state in which the lookup of the latest keystroke settles, reset by
    the closure that the lookup has captured. *)
Lemma keystroke_then_reset (text : string) (sn : SatsName) (w : World) :
  getSatsName env (toLowerCase env text) = Some sn ->
  includes (SUPPORTED_DOMAINS env) (suffix sn) = true ->
  resetOf (st w) (st (exec (dispatch env (Keystroke text)) w)) =
  cleared text true.
Proof.
  intros Hname Hsup. rewrite keystroke_st, Hname, Hsup.
  now rewrite resetOf_neutral.
Qed.

(** The state after a supported name was typed and its lookup has settled
    with nothing in between. *)
Lemma keystroke_settle_st (text : string) (sn : SatsName)
    (p : Settled (option Inscription)) (w : World) :
  getSatsName env (toLowerCase env text) = Some sn ->
  includes (SUPPORTED_DOMAINS env) (suffix sn) = true ->
  st (exec (dispatch env (Settles (length (inflight w)) p))
        (exec (dispatch env (Keystroke text)) w)) =
  resolvedState env text sn p.
Proof.
  intros Hname Hsup.
  pose proof (keystroke_lookup text sn w Hname Hsup) as Hl.
  pose proof (keystroke_then_reset text sn w Hname Hsup) as Hreset.
  rewrite (settles_st _ _ _ _ Hl). unfold resolvedState.
  destruct p as [[insc|]|message].
  - destruct (Z.ltb_spec (utxoConfirmation insc) (SAFE_DOMAIN_CONFIRMATION env)).
    + rewrite settle_unconfirmed by assumption.
      cbn [snd st l_snapshot]. now rewrite Hreset.
    + rewrite settle_confirmed by assumption.
      cbn [snd st l_snapshot l_suffix]. now rewrite Hreset.
  - rewrite settle_notFound. cbn [snd st l_snapshot l_inputAddress].
    now rewrite Hreset.
  - rewrite settle_rejected. cbn [snd st l_inputAddress].
    now rewrite keystroke_st, Hname, Hsup.
Qed.

End DispatchFacts.

(** * The claims *)

(** ** C9: what a keystroke resets *)

(** C9, as stated, fails on the searching flag: with a lookup for
    ["alice.sats"] in flight the flag is set, and the keystroke that replaces
    the input by ["bc1qabc"] leaves it set, both right after [resetState]
    and when the handler has returned. *)
Lemma C9_searching_not_reset :
  let w1 := Sample.after 3 [Keystroke "alice.sats"] in
  searching (st (exec (setInputVal "bc1qabc" ;; resetState (st w1)) w1)) = true /\
  searching (st (exec (dispatch (Sample.env 3) (Keystroke "bc1qabc")) w1)) = true.
Proof.
  vm_compute. split; reflexivity.
Qed.

(** C9 (amended): when the handler of a keystroke returns, before any lookup
    can settle, the state is the neutral state for the typed text with the
    one cell that the keystroke itself decides: the searching flag set for a
    supported name, the format error for an unsupported suffix or an invalid
    address, the valid address for a valid address. So the not-found text,
    the parsed address, the record and the recognised name are always
    neutral; the valid address is neutral unless the text is a valid
    address; the format error is neutral unless the keystroke itself sets
    it; and the searching flag is not reset: it is set when a lookup is
    started and left as it was otherwise. *)
Theorem C9_keystroke_reset (env : Env) (text : string) (w : World) :
  let w' := exec (dispatch env (Keystroke text)) w in
  let neutral := cleared text (searching (st w)) in
  st w' =
    match getSatsName env (toLowerCase env text) with
    | Some sn =>
        if includes (SUPPORTED_DOMAINS env) (suffix sn)
        then withSearching true neutral
        else withFormatError (supportedMessage (SUPPORTED_DOMAINS env)) neutral
    | None =>
        if isValid env text
        then withValidAddress text neutral
        else withFormatError "Recipient address is invalid" neutral
    end /\
  parseError (st w') = "" /\ parseAddress (st w') = "" /\
  inscription (st w') = None /\ parseName (st w') = "" /\
  inputVal (st w') = text /\
  validAddress (st w') =
    match getSatsName env (toLowerCase env text) with
    | Some _ => ""
    | None => if isValid env text then text else ""
    end /\
  formatError (st w') =
    match getSatsName env (toLowerCase env text) with
    | Some sn =>
        if includes (SUPPORTED_DOMAINS env) (suffix sn) then ""
        else supportedMessage (SUPPORTED_DOMAINS env)
    | None => if isValid env text then "" else "Recipient address is invalid"
    end /\
  searching (st w') =
    (searching (st w) ||
     match getSatsName env (toLowerCase env text) with
     | Some sn => includes (SUPPORTED_DOMAINS env) (suffix sn)
     | None => false
     end)%bool.
Proof.
  cbv zeta. rewrite keystroke_st.
  destruct (getSatsName env (toLowerCase env text)) as [sn|].
  - destruct (includes (SUPPORTED_DOMAINS env) (suffix sn)); cbn;
      rewrite ?orb_true_r, ?orb_false_r; repeat split.
  - destruct (isValid env text); cbn; rewrite orb_false_r; repeat split.
Qed.

(** ** C2: the empty input *)

(** C2, as stated, fails: clearing the input after an address was typed
    leaves the format error set. *)
Lemma C2_empty_input_shows_error :
  formatError (st (Sample.after 3 [Keystroke "bc1qabc"; Keystroke ""]))
    = "Recipient address is invalid" /\
  formatError (st (Sample.after 3 [Keystroke "bc1qabc"; Keystroke ""])) <> "".
Proof.
  vm_compute. split; [reflexivity | discriminate].
Qed.

(** C2 (amended): the empty string is handled like any other text that is
    neither a name nor a valid address. When the parser does not match it
    and the validator rejects it, the keystroke clears the resolved target,
    the record and the not-found text, and sets the format error to
    "Recipient address is invalid". *)
Theorem C2_empty_input (env : Env) (w : World) :
  getSatsName env (toLowerCase env "") = None ->
  isValid env "" = false ->
  st (exec (dispatch env (Keystroke "")) w) =
  withFormatError "Recipient address is invalid" (cleared "" (searching (st w))).
Proof.
  intros Hname Hinvalid. rewrite keystroke_st, Hname, Hinvalid. reflexivity.
Qed.

Lemma C2_empty_input_witness :
  st (exec (dispatch (Sample.env 3) (Keystroke ""))
        (Sample.after 3 [Keystroke "bc1qabc"])) =
  withFormatError "Recipient address is invalid" (cleared "" false).
Proof.
  apply (C2_empty_input (Sample.env 3) (Sample.after 3 [Keystroke "bc1qabc"]));
    reflexivity.
Defined.

(** ** C6: a supported name is never checked as an address *)

(** C6: when the lower-cased input parses as a name whose suffix is
    supported, the keystroke calls the resolver (with the encoded input) and
    does not call the address validator, whatever the validator would have
    answered; and for every input whatsoever a keystroke never calls both. *)
Theorem C6_name_skips_validator (env : Env) (text : string) (sn : SatsName)
    (w : World) :
  getSatsName env (toLowerCase env text) = Some sn ->
  includes (SUPPORTED_DOMAINS env) (suffix sn) = true ->
  let calls := callsSince w (exec (dispatch env (Keystroke text)) w) in
  existsb isValidatorCall calls = false /\
  In (CallQueryDomainInfo (encodeURIComponent env text)) calls /\
  forall (other : string) (v : World),
    let calls' := callsSince v (exec (dispatch env (Keystroke other)) v) in
    (existsb isValidatorCall calls' && existsb isResolverCall calls')%bool = false.
Proof.
  intros Hname Hsup. cbv zeta. split; [|split].
  - destruct (keystroke_calls env text w) as (effects & -> & Hv & _).
    rewrite Hname, Hsup. exact Hv.
  - destruct (keystroke_calls env text w) as (effects & -> & _).
    rewrite Hname, Hsup. now left.
  - intros other v.
    destruct (keystroke_calls env other v) as (effects & -> & Hv & Hr).
    destruct (getSatsName env (toLowerCase env other)) as [sn'|].
    + destruct (includes (SUPPORTED_DOMAINS env) (suffix sn')); cbn;
        rewrite Hv; reflexivity.
    + cbn. rewrite Hr. reflexivity.
Qed.

Lemma C6_name_skips_validator_witness :
  let w := Sample.after 3 [Keystroke "bc1qabc"] in
  let calls := callsSince w (exec (dispatch (Sample.env 3) (Keystroke "Alice.Sats")) w) in
  existsb isValidatorCall calls = false /\
  In (CallQueryDomainInfo "Alice.Sats") calls /\
  forall (other : string) (v : World),
    let calls' := callsSince v (exec (dispatch (Sample.env 3) (Keystroke other)) v) in
    (existsb isValidatorCall calls' && existsb isResolverCall calls')%bool = false.
Proof.
  apply (C6_name_skips_validator (Sample.env 3) "Alice.Sats"
           {| label := "alice"; suffix := "sats" |}
           (Sample.after 3 [Keystroke "bc1qabc"])); reflexivity.
Defined.

(** ** C7: a name with an unsupported suffix *)

(** The loop on three names. *)
Example joinNames_three :
  joinNames 3 0 [".a"; ".b"; ".c"] "" = ".a, .b and .c".
Proof.
  reflexivity.
Qed.

(** C7: when the lower-cased input parses as a name whose suffix is not
    supported, the keystroke sets the format error to "Currently only ... are
    supported." where the dotted supported suffixes are joined with commas
    and a final "and"; every supported suffix occurs in it; the resolver is
    not called and no lookup is started. *)
Theorem C7_unsupported_suffix (env : Env) (text : string) (sn : SatsName)
    (w : World) :
  getSatsName env (toLowerCase env text) = Some sn ->
  includes (SUPPORTED_DOMAINS env) (suffix sn) = false ->
  let w' := exec (dispatch env (Keystroke text)) w in
  formatError (st w') =
    "Currently only " ++ joinAnd (map (fun v => "." ++ v) (SUPPORTED_DOMAINS env))
      ++ " are supported." /\
  (forall d, In d (SUPPORTED_DOMAINS env) ->
             contains ("." ++ d) (formatError (st w')) = true) /\
  existsb isResolverCall (callsSince w w') = false /\
  inflight w' = inflight w.
Proof.
  intros Hname Hsup. cbv zeta.
  assert (Hmsg : formatError (st (exec (dispatch env (Keystroke text)) w)) =
                 "Currently only "
                   ++ joinAnd (map (fun v => "." ++ v) (SUPPORTED_DOMAINS env))
                   ++ " are supported.").
  { rewrite keystroke_st, Hname, Hsup. cbn [formatError withFormatError].
    apply supportedMessage_joinAnd. }
  split; [exact Hmsg | split; [|split]].
  - intros d Hd. rewrite Hmsg.
    destruct (joinAnd_mentions ("." ++ d)
                (map (fun v => "." ++ v) (SUPPORTED_DOMAINS env))) as (a & b & E).
    { apply in_map_iff. now exists d. }
    rewrite E.
    replace ("Currently only " ++ (a ++ ("." ++ d) ++ b) ++ " are supported.")
      with (("Currently only " ++ a) ++ ("." ++ d) ++ (b ++ " are supported."))
      by (now rewrite !append_assoc).
    apply contains_append.
  - destruct (keystroke_calls env text w) as (effects & -> & _ & Hr).
    rewrite Hname, Hsup. exact Hr.
  - rewrite keystroke_inflight, Hname, Hsup. apply app_nil_r.
Qed.

Lemma C7_unsupported_suffix_witness :
  let w := mount "" "" in
  let w' := exec (dispatch (Sample.env 3) (Keystroke "alice.unknown")) w in
  formatError (st w') =
    "Currently only " ++ joinAnd [".sats"; ".unicash"; ".btc"]
      ++ " are supported." /\
  (forall d, In d ["sats"; "unicash"; "btc"] ->
             contains ("." ++ d) (formatError (st w')) = true) /\
  existsb isResolverCall (callsSince w w') = false /\
  inflight w' = inflight w.
Proof.
  apply (C7_unsupported_suffix (Sample.env 3) "alice.unknown"
           {| label := "alice"; suffix := "unknown" |} (mount "" ""));
    reflexivity.
Defined.

(** ** C3: the confirmation check *)

(** The denominator of the waiting message is a literal: under a threshold
    of 5 a record of 4 confirmations is held back with a message that reads
    "(4/3)". *)
Lemma message_denominator_literal :
  let l := {| l_snapshot := cleared "" false; l_inputAddress := "alice.sats";
              l_suffix := "sats"; l_keystroke := 1 |} in
  let s' := st (exec (settle (Sample.env 5) l
                        (Fulfilled (Some (Sample.record "bc1qabc" 4))))
                  (Sample.after 5 [Keystroke "alice.sats"])) in
  validAddress s' = "" /\
  contains "(4/5)" (parseError s') = false /\
  contains "(4/3)" (parseError s') = true.
Proof.
  vm_compute. repeat split.
Qed.

Lemma unconfirmedMessage_progress (n : Z) :
  contains ("(" ++ string_of_number n ++ "/"
              ++ string_of_number safeConfirmations ++ ")")
    (unconfirmedMessage n) = true.
Proof.
  change (string_of_number safeConfirmations) with "3".
  unfold unconfirmedMessage.
  replace ("This domain has been transferred or inscribed recently. Please wait for block confirmations ("
             ++ string_of_number n ++ "/3).")
    with ("This domain has been transferred or inscribed recently. Please wait for block confirmations "
            ++ ("(" ++ string_of_number n ++ "/" ++ "3" ++ ")") ++ ".").
  - apply contains_append.
  - rewrite !append_assoc. reflexivity.
Qed.

(** C3: with SAFE_DOMAIN_CONFIRMATION at its value 3, when a supported name
    is typed and its lookup finds a record, the record is trusted (its
    address is stored as valid and parsed address, with the suffix as
    recognised name and no message) if and only if its confirmations are at
    least SAFE_DOMAIN_CONFIRMATION, and untrusted (the address cells stay
    empty, the record is kept, and the waiting message is shown) if and only
    if they are below; the message of an untrusted record contains
    "(confirmations/SAFE_DOMAIN_CONFIRMATION)". At
    SAFE_DOMAIN_CONFIRMATION - 1 the record is untrusted and the message
    contains "(SAFE_DOMAIN_CONFIRMATION-1/SAFE_DOMAIN_CONFIRMATION)"; at
    SAFE_DOMAIN_CONFIRMATION it is trusted. *)
Theorem C3_confirmation_gate (env : Env) (w : World) (text : string)
    (sn : SatsName) (insc : Inscription) :
  getSatsName env (toLowerCase env text) = Some sn ->
  includes (SUPPORTED_DOMAINS env) (suffix sn) = true ->
  SAFE_DOMAIN_CONFIRMATION env = safeConfirmations ->
  let s' := st (exec (dispatch env (Settles (length (inflight w))
                                      (Fulfilled (Some insc))))
                  (exec (dispatch env (Keystroke text)) w)) in
  let n := utxoConfirmation insc in
  let safe := SAFE_DOMAIN_CONFIRMATION env in
  let progress m := "(" ++ string_of_number m ++ "/" ++ string_of_number safe ++ ")" in
  let trusted :=
    withParseName (suffix sn)
      (withValidAddress (addressOrEmpty insc)
         (withParseAddress (addressOrEmpty insc)
            (withInscription (Some insc) (cleared text false)))) in
  let untrusted :=
    withParseError (unconfirmedMessage n)
      (withInscription (Some insc) (cleared text false)) in
  (s' = trusted <-> (safe <= n)%Z) /\
  (s' = untrusted <-> (n < safe)%Z) /\
  ((n < safe)%Z ->
     validAddress s' = "" /\ parseAddress s' = "" /\
     contains (progress n) (parseError s') = true) /\
  (n = (safe - 1)%Z ->
     s' = untrusted /\ contains (progress (safe - 1)%Z) (parseError s') = true) /\
  (n = safe -> s' = trusted).
Proof.
  intros Hname Hsup Hsafe. cbv zeta.
  rewrite (keystroke_settle_st env text sn _ w Hname Hsup).
  unfold resolvedState.
  assert (Hdiff : withParseName (suffix sn)
                    (withValidAddress (addressOrEmpty insc)
                       (withParseAddress (addressOrEmpty insc)
                          (withInscription (Some insc) (cleared text false)))) <>
                  withParseError (unconfirmedMessage (utxoConfirmation insc))
                    (withInscription (Some insc) (cleared text false))).
  { intros E. apply (f_equal parseError) in E. cbn in E. discriminate E. }
  destruct (Z.ltb_spec (utxoConfirmation insc) (SAFE_DOMAIN_CONFIRMATION env))
    as [Hlt|Hge].
  - split; [|split; [|split; [|split]]].
    + split; [intros E; symmetry in E; now elim Hdiff | lia].
    + split; [intros _; exact Hlt | reflexivity].
    + intros _.
      cbn [validAddress parseAddress parseError withParseError
           withInscription cleared].
      rewrite Hsafe. repeat split. apply unconfirmedMessage_progress.
    + intros E. split; [reflexivity|].
      cbn [parseError withParseError]. rewrite E, Hsafe.
      apply unconfirmedMessage_progress.
    + lia.
  - split; [|split; [|split; [|split]]].
    + split; [intros _; exact Hge | reflexivity].
    + split; [intros E; now elim Hdiff | lia].
    + lia.
    + lia.
    + reflexivity.
Qed.

Lemma C3_confirmation_gate_witness :
  let after n :=
    st (exec (dispatch (Sample.env 3)
                (Settles 0 (Fulfilled (Some (Sample.record "bc1qabc" n)))))
          (exec (dispatch (Sample.env 3) (Keystroke "alice.sats")) (mount "" ""))) in
  (after 2%Z =
     withParseError (unconfirmedMessage 2)
       (withInscription (Some (Sample.record "bc1qabc" 2))
          (cleared "alice.sats" false)) /\
   contains "(2/3)" (parseError (after 2%Z)) = true) /\
  after 3%Z =
    withParseName "sats"
      (withValidAddress "bc1qabc"
         (withParseAddress "bc1qabc"
            (withInscription (Some (Sample.record "bc1qabc" 3))
               (cleared "alice.sats" false)))).
Proof.
  cbv zeta. split.
  - apply (C3_confirmation_gate (Sample.env 3) (mount "" "") "alice.sats"
             {| label := "alice"; suffix := "sats" |} (Sample.record "bc1qabc" 2));
      reflexivity.
  - apply (C3_confirmation_gate (Sample.env 3) (mount "" "") "alice.sats"
             {| label := "alice"; suffix := "sats" |} (Sample.record "bc1qabc" 3));
      reflexivity.
Defined.

(** ** C4: a record that lacks confirmations *)

(** C4, as stated, fails: ["alice.sats"] is typed, then ["bob.sats"]; the
    superseded lookup of ["alice.sats"] settles with a trusted record, then
    the lookup of ["bob.sats"] settles with a record of one confirmation.
    The record of ["bob.sats"] is shown with the waiting message, and the
    valid address is not empty: it is still the address written for
    ["alice.sats"]. *)
Lemma C4_address_left_by_superseded_lookup :
  let w := Sample.after 3 [Keystroke "alice.sats"; Keystroke "bob.sats";
                           Settles 0 (Fulfilled (Some (Sample.record "bc1qalice" 5)))] in
  let w' := exec (dispatch (Sample.env 3)
                    (Settles 0 (Fulfilled (Some (Sample.record "bc1qbob" 1))))) w in
  nth_error (inflight w) 0 =
    Some {| l_snapshot := st (Sample.after 3 [Keystroke "alice.sats"]);
            l_inputAddress := "bob.sats"; l_suffix := "sats"; l_keystroke := 2 |} /\
  keystrokes w = 2 /\
  inscription (st w') = Some (Sample.record "bc1qbob" 1) /\
  parseError (st w') = unconfirmedMessage 1 /\
  validAddress (st w') = "bc1qalice" /\
  validAddress (st w') <> "".
Proof.
  vm_compute. repeat split. discriminate.
Qed.

(** C4 (amended): whenever a lookup is fulfilled with a record that has
    fewer than SAFE_DOMAIN_CONFIRMATION confirmations, the record is stored
    for display together with the waiting message, and its address is not
    written to the valid or the parsed address: each is cleared or left as
    it was, and the address given to [onAddressInputChange], if it is
    called, is empty. When a supported name is typed and its lookup settles
    so before any other event, the valid and the parsed address are empty,
    as if nothing had been resolved, and the callback is not called. *)
Theorem C4_unconfirmed_record (env : Env) (w : World) (i : nat) (l : Lookup)
    (v : World) (text : string) (sn : SatsName) (insc : Inscription) :
  nth_error (inflight w) i = Some l ->
  getSatsName env (toLowerCase env text) = Some sn ->
  includes (SUPPORTED_DOMAINS env) (suffix sn) = true ->
  (utxoConfirmation insc < SAFE_DOMAIN_CONFIRMATION env)%Z ->
  let w' := exec (dispatch env (Settles i (Fulfilled (Some insc)))) w in
  let v1 := exec (dispatch env (Keystroke text)) v in
  let v2 := exec (dispatch env (Settles (length (inflight v))
                                  (Fulfilled (Some insc)))) v1 in
  (inscription (st w') = Some insc /\
   parseError (st w') = unconfirmedMessage (utxoConfirmation insc) /\
   (validAddress (st w') = "" \/ validAddress (st w') = validAddress (st w)) /\
   (parseAddress (st w') = "" \/ parseAddress (st w') = parseAddress (st w)) /\
   (forall params, In (CallOnAddressInputChange params) (callsSince w w') ->
                   ch_address params = "")) /\
  (st v2 = withParseError (unconfirmedMessage (utxoConfirmation insc))
             (withInscription (Some insc) (cleared text false)) /\
   validAddress (st v2) = "" /\ parseAddress (st v2) = "" /\
   callsSince v1 v2 = []).
Proof.
  intros Hl Hname Hsup Hlt. cbv zeta. split.
  - pose proof (settles_calls env i l (Fulfilled (Some insc)) w Hl) as Hcalls.
    cbv zeta in Hcalls. rewrite Hcalls.
    rewrite (settles_st env i l _ w Hl), settle_unconfirmed by exact Hlt.
    cbn [snd st inscription parseError validAddress parseAddress
         withSearching withParseError withInscription resetOf].
    assert (Hv : (if truthy (validAddress (l_snapshot l)) then ""
                  else validAddress (st w)) = "" \/
                 (if truthy (validAddress (l_snapshot l)) then ""
                  else validAddress (st w)) = validAddress (st w))
      by (destruct (truthy (validAddress (l_snapshot l))); auto).
    split; [reflexivity | split; [reflexivity | split; [exact Hv | split]]].
    + destruct (truthy (parseAddress (l_snapshot l))); auto.
    + intros params. destruct Hv as [Hv|Hv]; rewrite Hv.
      * destruct (String.eqb (validAddress (st w)) ""); [intros []|].
        intros [E|[]]. inversion E. cbn. exact Hv.
      * rewrite String.eqb_refl. intros [].
  - assert (Hst : st (exec (dispatch env (Settles (length (inflight v))
                                            (Fulfilled (Some insc))))
                        (exec (dispatch env (Keystroke text)) v)) =
                  withParseError (unconfirmedMessage (utxoConfirmation insc))
                    (withInscription (Some insc) (cleared text false))).
    { rewrite (keystroke_settle_st env text sn _ v Hname Hsup).
      unfold resolvedState.
      destruct (Z.ltb_spec (utxoConfirmation insc) (SAFE_DOMAIN_CONFIRMATION env));
        [reflexivity | lia]. }
    split; [exact Hst | split; [now rewrite Hst | split; [now rewrite Hst|]]].
    pose proof (settles_calls env _ _ (Fulfilled (Some insc)) _
                  (keystroke_lookup env text sn v Hname Hsup)) as Hcalls.
    cbv zeta in Hcalls. rewrite Hcalls, Hst.
    rewrite keystroke_st, Hname, Hsup. reflexivity.
Qed.

Lemma C4_unconfirmed_record_witness :
  let insc := Sample.record "bc1qbob" 1 in
  let w := Sample.after 3 [Keystroke "alice.sats"; Keystroke "bob.sats";
                           Settles 0 (Fulfilled (Some (Sample.record "bc1qalice" 5)))] in
  let w' := exec (dispatch (Sample.env 3) (Settles 0 (Fulfilled (Some insc)))) w in
  let v := Sample.after 3 [Keystroke "bc1qabc"] in
  let v1 := exec (dispatch (Sample.env 3) (Keystroke "bob.sats")) v in
  let v2 := exec (dispatch (Sample.env 3) (Settles 0 (Fulfilled (Some insc)))) v1 in
  (inscription (st w') = Some insc /\
   parseError (st w') = unconfirmedMessage 1 /\
   (validAddress (st w') = "" \/ validAddress (st w') = validAddress (st w)) /\
   (parseAddress (st w') = "" \/ parseAddress (st w') = parseAddress (st w)) /\
   (forall params, In (CallOnAddressInputChange params) (callsSince w w') ->
                   ch_address params = "")) /\
  (st v2 = withParseError (unconfirmedMessage 1)
             (withInscription (Some insc) (cleared "bob.sats" false)) /\
   validAddress (st v2) = "" /\ parseAddress (st v2) = "" /\
   callsSince v1 v2 = []).
Proof.
  apply (C4_unconfirmed_record (Sample.env 3)
           (Sample.after 3 [Keystroke "alice.sats"; Keystroke "bob.sats";
                            Settles 0 (Fulfilled (Some (Sample.record "bc1qalice" 5)))])
           0
           {| l_snapshot := st (Sample.after 3 [Keystroke "alice.sats"]);
              l_inputAddress := "bob.sats"; l_suffix := "sats"; l_keystroke := 2 |}
           (Sample.after 3 [Keystroke "bc1qabc"]) "bob.sats"
           {| label := "bob"; suffix := "sats" |} (Sample.record "bc1qbob" 1));
    reflexivity.
Defined.

(** ** C10: the address handed on is a string *)

(** C10: when a lookup is fulfilled with a record that has enough
    confirmations, the valid address and the parsed address become the
    record's address, or the empty string when the record has no address;
    with a missing or empty address both are the empty string; and the
    address given to [onAddressInputChange], if the effect calls it, is that
    string. *)
Theorem C10_address_coerced (env : Env) (w : World) (i : nat) (l : Lookup)
    (insc : Inscription) :
  nth_error (inflight w) i = Some l ->
  (SAFE_DOMAIN_CONFIRMATION env <= utxoConfirmation insc)%Z ->
  let w' := exec (dispatch env (Settles i (Fulfilled (Some insc)))) w in
  validAddress (st w') = addressOrEmpty insc /\
  parseAddress (st w') = addressOrEmpty insc /\
  (address insc = None \/ address insc = Some "" ->
     validAddress (st w') = "" /\ parseAddress (st w') = "") /\
  (forall params, In (CallOnAddressInputChange params) (callsSince w w') ->
                  ch_address params = addressOrEmpty insc).
Proof.
  intros Hl Hge. cbv zeta.
  pose proof (settles_calls env i l (Fulfilled (Some insc)) w Hl) as Hcalls.
  cbv zeta in Hcalls. rewrite Hcalls.
  rewrite (settles_st env i l _ w Hl), settle_confirmed by exact Hge.
  cbn [snd st validAddress parseAddress withSearching withParseName
       withValidAddress withParseAddress].
  split; [reflexivity | split; [reflexivity | split]].
  - unfold addressOrEmpty. intros [-> | ->]; split; reflexivity.
  - intros params.
    destruct (String.eqb (validAddress (st w)) (addressOrEmpty insc)); [intros []|].
    intros [E|[]]. inversion E. reflexivity.
Qed.

Lemma C10_address_coerced_witness :
  let w := Sample.after 3 [Keystroke "alice.sats"] in
  let insc := {| address := None; utxoConfirmation := 5; inscriptionRef := "i0" |} in
  let w' := exec (dispatch (Sample.env 3) (Settles 0 (Fulfilled (Some insc)))) w in
  validAddress (st w') = "" /\
  parseAddress (st w') = "" /\
  (address insc = None \/ address insc = Some "" ->
     validAddress (st w') = "" /\ parseAddress (st w') = "") /\
  (forall params, In (CallOnAddressInputChange params) (callsSince w w') ->
                  ch_address params = "").
Proof.
  apply (C10_address_coerced (Sample.env 3)
           (Sample.after 3 [Keystroke "alice.sats"]) 0
           {| l_snapshot := initialState "" ""; l_inputAddress := "alice.sats";
              l_suffix := "sats"; l_keystroke := 1 |}
           {| address := None; utxoConfirmation := 5; inscriptionRef := "i0" |});
    [reflexivity | vm_compute; discriminate].
Defined.

(** ** C8: not found, and failure of the lookup *)

(** C8: when the lookup started by the latest keystroke settles, a [null]
    result sets the not-found text to the input followed by
    " does not exist" and leaves every other cell neutral; a rejection sets
    the format error to the failure message, " for " and the input, and
    leaves every other cell neutral; searching is cleared in both cases; and
    the promise chain of any lookup, however it settles, ends fulfilled, so
    that nothing is thrown out of the component. *)
Theorem C8_lookup_errors (env : Env) (w : World) (text : string) (sn : SatsName) :
  getSatsName env (toLowerCase env text) = Some sn ->
  includes (SUPPORTED_DOMAINS env) (suffix sn) = true ->
  let w1 := exec (dispatch env (Keystroke text)) w in
  let i := length (inflight w) in
  st (exec (dispatch env (Settles i (Fulfilled None))) w1) =
    withParseError (text ++ " does not exist") (cleared text false) /\
  (forall message,
     st (exec (dispatch env (Settles i (Rejected message))) w1) =
       withFormatError (message ++ " for " ++ text) (cleared text false)) /\
  (forall l p v, fst (settle env l p v) = Fulfilled tt).
Proof.
  intros Hname Hsup. cbv zeta.
  pose proof (keystroke_lookup env text sn w Hname Hsup) as Hl.
  split; [|split].
  - rewrite (settles_st env _ _ _ _ Hl), settle_notFound.
    cbn [snd st l_snapshot l_inputAddress].
    now rewrite (keystroke_then_reset env text sn w Hname Hsup).
  - intros message. rewrite (settles_st env _ _ _ _ Hl), settle_rejected.
    cbn [snd st l_inputAddress]. rewrite keystroke_st, Hname, Hsup. reflexivity.
  - apply settle_fulfilled.
Qed.

Lemma C8_lookup_errors_witness :
  let w1 := exec (dispatch (Sample.env 3) (Keystroke "alice.sats")) (mount "" "") in
  st (exec (dispatch (Sample.env 3) (Settles 0 (Fulfilled None))) w1) =
    withParseError "alice.sats does not exist" (cleared "alice.sats" false) /\
  (forall message,
     st (exec (dispatch (Sample.env 3) (Settles 0 (Rejected message))) w1) =
       withFormatError (message ++ " for alice.sats") (cleared "alice.sats" false)) /\
  (forall l p v, fst (settle (Sample.env 3) l p v) = Fulfilled tt).
Proof.
  apply (C8_lookup_errors (Sample.env 3) (mount "" "") "alice.sats"
           {| label := "alice"; suffix := "sats" |}); reflexivity.
Defined.

(** ** C5: what the callback receives on a resolved name *)

(** C5, as stated, fails on the domain: for ["alice.sats"] resolved to
    ["bc1qabc"] with 5 confirmations the callback receives the whole input
    as domain, not the suffix ["sats"]. *)
Lemma C5_domain_is_input :
  let w1 := Sample.after 3 [Keystroke "alice.sats"] in
  let w2 := exec (dispatch (Sample.env 3)
                    (Settles 0 (Fulfilled (Some (Sample.record "bc1qabc" 5))))) w1 in
  callsSince w1 w2 =
    [CallOnAddressInputChange
       {| ch_address := "bc1qabc"; ch_domain := "alice.sats";
          ch_inscription := Some (Sample.record "bc1qabc" 5) |}] /\
  "alice.sats" <> "sats" /\
  parseName (st w2) = "sats".
Proof.
  vm_compute. repeat split. discriminate.
Qed.

(** C5 (amended): when the lookup started by the latest keystroke is
    fulfilled with a record that has enough confirmations and a non-empty
    address, [onAddressInputChange] is called once, with the record's address
    as address, the input text as typed as domain, and the record; the
    matched suffix is stored as the recognised name and is not handed to the
    callback. *)
Theorem C5_resolved_callback (env : Env) (w : World) (text : string)
    (sn : SatsName) (insc : Inscription) (owner : string) :
  getSatsName env (toLowerCase env text) = Some sn ->
  includes (SUPPORTED_DOMAINS env) (suffix sn) = true ->
  (SAFE_DOMAIN_CONFIRMATION env <= utxoConfirmation insc)%Z ->
  address insc = Some owner ->
  owner <> "" ->
  let w1 := exec (dispatch env (Keystroke text)) w in
  let w2 := exec (dispatch env (Settles (length (inflight w))
                                  (Fulfilled (Some insc)))) w1 in
  callsSince w1 w2 =
    [CallOnAddressInputChange
       {| ch_address := owner; ch_domain := text; ch_inscription := Some insc |}] /\
  st w2 =
    withParseName (suffix sn)
      (withValidAddress owner
         (withParseAddress owner
            (withInscription (Some insc) (cleared text false)))).
Proof.
  intros Hname Hsup Hge Haddr Hne. cbv zeta.
  pose proof (keystroke_lookup env text sn w Hname Hsup) as Hl.
  assert (Hown : addressOrEmpty insc = owner)
    by (unfold addressOrEmpty; now rewrite Haddr).
  assert (Hst : st (exec (dispatch env (Settles (length (inflight w))
                                          (Fulfilled (Some insc))))
                      (exec (dispatch env (Keystroke text)) w)) =
                withParseName (suffix sn)
                  (withValidAddress owner
                     (withParseAddress owner
                        (withInscription (Some insc) (cleared text false))))).
  { rewrite (settles_st env _ _ _ _ Hl), settle_confirmed by exact Hge.
    cbn [snd st l_snapshot l_suffix].
    now rewrite (keystroke_then_reset env text sn w Hname Hsup), Hown. }
  split; [|exact Hst].
  pose proof (settles_calls env _ _ (Fulfilled (Some insc)) _ Hl) as Hcalls.
  cbv zeta in Hcalls. rewrite Hcalls, Hst.
  rewrite keystroke_st, Hname, Hsup.
  cbn [validAddress withSearching withParseName withValidAddress cleared].
  destruct (String.eqb_spec "" owner) as [E|_]; [now elim Hne|].
  unfold changeOf.
  cbn [validAddress parseAddress inputVal inscription withParseName
       withValidAddress withParseAddress withInscription cleared].
  now rewrite (truthy_true owner Hne).
Qed.

Lemma C5_resolved_callback_witness :
  let w1 := exec (dispatch (Sample.env 3) (Keystroke "alice.sats")) (mount "" "") in
  let w2 := exec (dispatch (Sample.env 3)
                    (Settles 0 (Fulfilled (Some (Sample.record "bc1qabc" 5))))) w1 in
  callsSince w1 w2 =
    [CallOnAddressInputChange
       {| ch_address := "bc1qabc"; ch_domain := "alice.sats";
          ch_inscription := Some (Sample.record "bc1qabc" 5) |}] /\
  st w2 =
    withParseName "sats"
      (withValidAddress "bc1qabc"
         (withParseAddress "bc1qabc"
            (withInscription (Some (Sample.record "bc1qabc" 5))
               (cleared "alice.sats" false)))).
Proof.
  apply (C5_resolved_callback (Sample.env 3) (mount "" "") "alice.sats"
           {| label := "alice"; suffix := "sats" |}
           (Sample.record "bc1qabc" 5) "bc1qabc");
    [reflexivity | reflexivity | vm_compute; discriminate | reflexivity | discriminate].
Defined.

(** ** C1: a lookup superseded by a later keystroke *)

(** C1, as stated, fails: ["alice.sats"] is typed, then ["bob.sats"], and
    the first lookup settles while the second is in flight. The lookup is
    superseded, yet its record is written to the state and handed to the
    callback next to the new input; a superseded failure or not-found result
    is written as well. *)
Lemma C1_superseded_lookup_applied :
  let env := Sample.env 3 in
  let w2 := Sample.after 3 [Keystroke "alice.sats"; Keystroke "bob.sats"] in
  let l := {| l_snapshot := initialState "" ""; l_inputAddress := "alice.sats";
              l_suffix := "sats"; l_keystroke := 1 |} in
  let found := Fulfilled (Some (Sample.record "bc1qalice" 5)) in
  let w3 := exec (dispatch env (Settles 0 found)) w2 in
  nth_error (inflight w2) 0 = Some l /\
  superseded l w2 /\
  inputVal (st w3) = "bob.sats" /\
  validAddress (st w3) = "bc1qalice" /\
  inscription (st w3) = Some (Sample.record "bc1qalice" 5) /\
  st w3 <> st w2 /\
  callsSince w2 w3 =
    [CallOnAddressInputChange
       {| ch_address := "bc1qalice"; ch_domain := "bob.sats";
          ch_inscription := Some (Sample.record "bc1qalice" 5) |}] /\
  parseError (st (exec (dispatch env (Settles 0 (Fulfilled None))) w2)) =
    "alice.sats does not exist" /\
  formatError (st (exec (dispatch env (Settles 0 (Rejected "timeout"))) w2)) =
    "timeout for alice.sats".
Proof.
  vm_compute. repeat split; try discriminate.
Qed.

(** C1 (amended): the component keeps no generation and compares none.
    Whenever a lookup in flight settles, superseded or not, its result is
    applied: searching is cleared; a [null] result sets the not-found text
    for the input the lookup has captured; a rejection sets the format error
    for that input; a record that lacks confirmations is stored with the
    waiting message; a record with enough confirmations is stored and its
    address becomes the valid and the parsed address, with the captured
    suffix as recognised name. *)
Theorem C1_settled_lookup_applied (env : Env) (w : World) (i : nat) (l : Lookup) :
  nth_error (inflight w) i = Some l ->
  let after p := st (exec (dispatch env (Settles i p)) w) in
  (forall p, searching (after p) = false) /\
  parseError (after (Fulfilled None)) = l_inputAddress l ++ " does not exist" /\
  (forall message,
     formatError (after (Rejected message)) =
       message ++ " for " ++ l_inputAddress l) /\
  (forall insc,
     (utxoConfirmation insc < SAFE_DOMAIN_CONFIRMATION env)%Z ->
     inscription (after (Fulfilled (Some insc))) = Some insc /\
     parseError (after (Fulfilled (Some insc))) =
       unconfirmedMessage (utxoConfirmation insc)) /\
  (forall insc,
     (SAFE_DOMAIN_CONFIRMATION env <= utxoConfirmation insc)%Z ->
     inscription (after (Fulfilled (Some insc))) = Some insc /\
     validAddress (after (Fulfilled (Some insc))) = addressOrEmpty insc /\
     parseAddress (after (Fulfilled (Some insc))) = addressOrEmpty insc /\
     parseName (after (Fulfilled (Some insc))) = l_suffix l).
Proof.
  intros Hl. cbv zeta. split; [|split; [|split; [|split]]].
  - intros p. rewrite (settles_st env i l p w Hl).
    destruct p as [[insc|]|message].
    + destruct (Z.lt_ge_cases (utxoConfirmation insc) (SAFE_DOMAIN_CONFIRMATION env)).
      * now rewrite settle_unconfirmed.
      * now rewrite settle_confirmed.
    + now rewrite settle_notFound.
    + reflexivity.
  - now rewrite (settles_st env i l _ w Hl), settle_notFound.
  - intros message. now rewrite (settles_st env i l _ w Hl), settle_rejected.
  - intros insc Hlt.
    rewrite (settles_st env i l _ w Hl), settle_unconfirmed by exact Hlt.
    split; reflexivity.
  - intros insc Hge.
    rewrite (settles_st env i l _ w Hl), settle_confirmed by exact Hge.
    repeat split.
Qed.

Lemma C1_settled_lookup_applied_witness :
  let env := Sample.env 3 in
  let w := Sample.after 3 [Keystroke "alice.sats"; Keystroke "bob.sats"] in
  let after p := st (exec (dispatch env (Settles 0 p)) w) in
  (forall p, searching (after p) = false) /\
  parseError (after (Fulfilled None)) = "alice.sats does not exist" /\
  (forall message,
     formatError (after (Rejected message)) = message ++ " for alice.sats") /\
  (forall insc,
     (utxoConfirmation insc < 3)%Z ->
     inscription (after (Fulfilled (Some insc))) = Some insc /\
     parseError (after (Fulfilled (Some insc))) =
       unconfirmedMessage (utxoConfirmation insc)) /\
  (forall insc,
     (3 <= utxoConfirmation insc)%Z ->
     inscription (after (Fulfilled (Some insc))) = Some insc /\
     validAddress (after (Fulfilled (Some insc))) = addressOrEmpty insc /\
     parseAddress (after (Fulfilled (Some insc))) = addressOrEmpty insc /\
     parseName (after (Fulfilled (Some insc))) = "sats").
Proof.
  apply (C1_settled_lookup_applied (Sample.env 3)
           (Sample.after 3 [Keystroke "alice.sats"; Keystroke "bob.sats"]) 0
           {| l_snapshot := initialState "" ""; l_inputAddress := "alice.sats";
              l_suffix := "sats"; l_keystroke := 1 |}).
  reflexivity.
Defined.

(** ** The scenarios of the specification, run on the sample environment *)

(** A: a valid address is taken as it is, without any lookup. *)
Example scenario_A :
  let w := Sample.after 3 [Keystroke "bc1qvalidaddr"] in
  st w = withValidAddress "bc1qvalidaddr" (cleared "bc1qvalidaddr" false) /\
  existsb isResolverCall (trace w) = false.
Proof.
  vm_compute. split; reflexivity.
Qed.

(** C: one confirmation out of three. *)
Example scenario_C :
  st (Sample.after 3 [Keystroke "alice.sats";
                      Settles 0 (Fulfilled (Some (Sample.record "bc1qabc" 1)))]) =
  withParseError
    "This domain has been transferred or inscribed recently. Please wait for block confirmations (1/3)."
    (withInscription (Some (Sample.record "bc1qabc" 1)) (cleared "alice.sats" false)).
Proof.
  vm_compute. reflexivity.
Qed.

(** E, continued: after the superseded lookup for ["alice.sats"] has written
    its record, the lookup for ["bob.sats"] finds nothing. Its reset reads the
    snapshot taken when ["bob.sats"] was typed, in which nothing was set, so
    the address and the record of ["alice.sats"] stay next to the not-found
    text of ["bob.sats"]. *)
Example scenario_E_both_settled :
  st (Sample.after 3 [Keystroke "alice.sats"; Keystroke "bob.sats";
                      Settles 0 (Fulfilled (Some (Sample.record "bc1qalice" 5)));
                      Settles 0 (Fulfilled None)]) =
  withParseError "bob.sats does not exist"
    (withValidAddress "bc1qalice"
       (withParseAddress "bc1qalice"
          (withInscription (Some (Sample.record "bc1qalice" 5))
             (cleared "bob.sats" false)))).
Proof.
  vm_compute. reflexivity.
Qed.

(** When the lookups settle in the order of the keystrokes, and each before
    the next keystroke, the state shows the latest result only. *)
Example lookups_in_order :
  st (Sample.after 3 [Keystroke "alice.sats";
                      Settles 0 (Fulfilled (Some (Sample.record "bc1qalice" 5)));
                      Keystroke "bob.sats";
                      Settles 0 (Fulfilled None)]) =
  withParseError "bob.sats does not exist" (cleared "bob.sats" false).
Proof.
  vm_compute. reflexivity.
Qed.

(** * Further properties *)

(** ** AmountInput: the two patterns *)

Module AmountFacts.
Import Amount.

Lemma isNonZeroDigit_isDigit (c : ascii) :
  isNonZeroDigit c = true -> isDigit c = true.
Proof.
  unfold isNonZeroDigit, isDigit. cbv zeta. intros H.
  apply andb_true_iff in H. destruct H as [H1 H2].
  apply andb_true_iff. split; [|exact H2].
  apply Nat.leb_le in H1. apply Nat.leb_le. lia.
Qed.

Lemma allDigits_testDecimal (s : string) :
  allDigits s = true -> testDecimal s = true.
Proof.
  induction s as [|c s IH]; [reflexivity|]. cbn [allDigits testDecimal].
  intros H. apply andb_true_iff in H. destruct H as [Hc Hs].
  rewrite Hc. now apply IH.
Qed.

Lemma dot_not_digit : isDigit "." = false.
Proof.
  reflexivity.
Qed.

Lemma testDecimal_app (a b : string) :
  allDigits a = true -> testDecimal b = true -> testDecimal (a ++ b) = true.
Proof.
  induction a as [|c a IH]; [trivial|]. cbn [allDigits append testDecimal].
  intros H Hb. apply andb_true_iff in H. destruct H as [Hc Ha].
  rewrite Hc. now apply IH.
Qed.

Lemma testDecimal_shape_of (s : string) :
  testDecimal s = true -> decimalShape s.
Proof.
  induction s as [|c s IH]; cbn [testDecimal].
  - intros _. exists "", "". repeat split. now left.
  - destruct (isDigit c) eqn:Hc.
    + intros H. destruct (IH H) as (a & b & Ha & Hb & [E|E]).
      * exists (String c a), b. cbn [allDigits]. rewrite Hc, Ha.
        repeat split; [exact Hb|]. left. now rewrite E.
      * exists (String c a), b. cbn [allDigits]. rewrite Hc, Ha.
        repeat split; [exact Hb|]. right. now rewrite E.
    + destruct (Ascii.eqb_spec c ".") as [->|_]; [|discriminate].
      intros H. exists "", s. repeat split; [exact H|]. now right.
Qed.

Lemma testDecimal_of_shape (s : string) :
  decimalShape s -> testDecimal s = true.
Proof.
  intros (a & b & Ha & Hb & [->| ->]).
  - apply testDecimal_app; [exact Ha | now apply allDigits_testDecimal].
  - apply testDecimal_app; [exact Ha|].
    cbn [append testDecimal]. rewrite dot_not_digit. exact Hb.
Qed.

(** The pattern with decimals accepts exactly the texts made of digits,
    optionally followed by one dot and digits; the empty text, a lone dot,
    and a text that starts or ends with the dot are among them. *)
Theorem testDecimal_language (s : string) :
  testDecimal s = true <-> decimalShape s.
Proof.
  split; [apply testDecimal_shape_of | apply testDecimal_of_shape].
Qed.

Lemma isDigit_cases (c : ascii) :
  isDigit c = true ->
  In c ["0"; "1"; "2"; "3"; "4"; "5"; "6"; "7"; "8"; "9"]%char.
Proof.
  destruct c as [[] [] [] [] [] [] [] []]; cbn; intros H;
    try discriminate H; tauto.
Qed.

Lemma allDigits_string_of_uint (d : Decimal.uint) :
  allDigits (NilEmpty.string_of_uint d) = true.
Proof.
  induction d; cbn [NilEmpty.string_of_uint allDigits]; rewrite ?IHd; reflexivity.
Qed.

Lemma allDigits_is_uint (s : string) :
  allDigits s = true -> exists d, NilEmpty.string_of_uint d = s.
Proof.
  induction s as [|c s IH]; [now exists Decimal.Nil|].
  cbn [allDigits]. intros H. apply andb_true_iff in H. destruct H as [Hc Hs].
  destruct (IH Hs) as [d Hd]. apply isDigit_cases in Hc.
  cbn [In] in Hc.
  destruct Hc as [<-|[<-|[<-|[<-|[<-|[<-|[<-|[<-|[<-|[<-|[]]]]]]]]]]].
  - exists (Decimal.D0 d). cbn. now rewrite Hd.
  - exists (Decimal.D1 d). cbn. now rewrite Hd.
  - exists (Decimal.D2 d). cbn. now rewrite Hd.
  - exists (Decimal.D3 d). cbn. now rewrite Hd.
  - exists (Decimal.D4 d). cbn. now rewrite Hd.
  - exists (Decimal.D5 d). cbn. now rewrite Hd.
  - exists (Decimal.D6 d). cbn. now rewrite Hd.
  - exists (Decimal.D7 d). cbn. now rewrite Hd.
  - exists (Decimal.D8 d). cbn. now rewrite Hd.
  - exists (Decimal.D9 d). cbn. now rewrite Hd.
Qed.

(** A numeral without a leading zero prints and normalises to itself. *)
Lemma string_of_number_of_uint (d : Decimal.uint) :
  Decimal.unorm d = d -> d <> Decimal.D0 Decimal.Nil ->
  exists n : Z, (0 < n)%Z /\ string_of_number n = NilEmpty.string_of_uint d.
Proof.
  intros Hnorm Hnz. exists (Z.of_int (Decimal.Pos d)).
  assert (Hto : Z.to_int (Z.of_int (Decimal.Pos d)) = Decimal.Pos d).
  { rewrite DecimalZ.to_of. cbn [Decimal.norm]. now rewrite Hnorm. }
  split.
  - destruct (Z.of_int (Decimal.Pos d)) as [|p|p]; cbn [Z.to_int] in Hto.
    + inversion Hto as [E]. now elim Hnz.
    + lia.
    + discriminate Hto.
  - unfold string_of_number. rewrite Hto. cbn [NilZero.string_of_int].
    unfold NilZero.string_of_uint. destruct d; try reflexivity.
    now elim (DecimalFacts.unorm_nonnil Decimal.Nil).
Qed.

Lemma to_uint_normal (p : positive) :
  Decimal.unorm (Pos.to_uint p) = Pos.to_uint p.
Proof.
  rewrite <- DecimalPos.Unsigned.to_of, DecimalPos.Unsigned.of_to. reflexivity.
Qed.

Lemma to_uint_head (p : positive) (u : Decimal.uint) :
  Pos.to_uint p <> Decimal.D0 u.
Proof.
  intros E. pose proof (to_uint_normal p) as Hn. rewrite E in Hn.
  rewrite DecimalFacts.unorm_D0 in Hn.
  destruct (Decimal.nzhead u) eqn:Hu.
  2: now elim (DecimalFacts.nzhead_nonzero u u0).
  2-10: rewrite DecimalFacts.unorm_nzhead in Hn by (rewrite Hu; discriminate);
        now elim (DecimalFacts.nzhead_nonzero u u).
  assert (H0 : Decimal.unorm u = Decimal.D0 Decimal.Nil)
    by (now apply DecimalFacts.unorm_0).
  rewrite H0 in Hn. inversion Hn as [Hnil].
  apply (DecimalPos.Unsigned.to_uint_nonzero p). now rewrite E, <- Hnil.
Qed.

Lemma testInteger_numeral (s : string) :
  testInteger s = true <-> exists n : Z, (0 < n)%Z /\ s = string_of_number n.
Proof.
  split.
  - destruct s as [|c rest]; [discriminate|]. cbn [testInteger].
    intros H. apply andb_true_iff in H. destruct H as [Hc Hrest].
    assert (Hall : allDigits (String c rest) = true)
      by (cbn [allDigits]; now rewrite (isNonZeroDigit_isDigit c Hc), Hrest).
    destruct (allDigits_is_uint _ Hall) as [d Hd].
    destruct (string_of_number_of_uint d) as (n & Hpos & Hn).
    + destruct d; try reflexivity; cbn in Hd;
        [discriminate Hd | inversion Hd; subst; now vm_compute in Hc].
    + intros ->. cbn in Hd. inversion Hd; subst. now vm_compute in Hc.
    + exists n. split; [exact Hpos|]. now rewrite Hn.
  - intros (n & Hpos & ->). destruct n as [|p|p]; try lia.
    unfold string_of_number. cbn [Z.to_int NilZero.string_of_int].
    unfold NilZero.string_of_uint.
    pose proof (to_uint_head p) as Hhead.
    pose proof (DecimalPos.Unsigned.to_uint_nonnil p) as Hnil.
    destruct (Pos.to_uint p) as [|u|u|u|u|u|u|u|u|u|u];
      [now elim Hnil | now elim (Hhead u) | ..];
      cbn [NilEmpty.string_of_uint testInteger];
      now rewrite allDigits_string_of_uint.
Qed.

(** In whole-number mode the pattern accepts exactly the decimal numerals
    of the positive integers: no sign, no leading zero, not zero itself. *)
Theorem testInteger_positive (s : string) :
  testInteger s = true <-> exists n : Z, (0 < n)%Z /\ s = string_of_number n.
Proof.
  exact (testInteger_numeral s).
Qed.

Lemma testInteger_decimal (s : string) :
  testInteger s = true -> testDecimal s = true.
Proof.
  destruct s as [|c rest]; [discriminate|]. cbn [testInteger].
  intros H. apply andb_true_iff in H. destruct H as [Hc Hrest].
  apply allDigits_testDecimal. cbn [allDigits].
  now rewrite (isNonZeroDigit_isDigit c Hc), Hrest.
Qed.

(** Whatever whole-number mode accepts, the mode with decimals accepts. *)
Theorem testInteger_testDecimal (s : string) :
  testInteger s = true -> testDecimal s = true.
Proof.
  exact (testInteger_decimal s).
Qed.

Lemma testInteger_testDecimal_witness : testDecimal "120" = true.
Proof.
  apply (testInteger_testDecimal "120"). reflexivity.
Defined.

(** ** AmountInput: events *)

Lemma testDecimal_chars (s : string) :
  testDecimal s = true ->
  forall c, In c (list_ascii_of_string s) -> isDigit c = true \/ c = "."%char.
Proof.
  intros H c Hin. destruct (testDecimal_shape_of s H) as (a & b & Ha & Hb & E).
  assert (Hdigits : forall t, allDigits t = true ->
                    forall x, In x (list_ascii_of_string t) -> isDigit x = true).
  { induction t as [|y t IH]; cbn [allDigits list_ascii_of_string];
      [intros _ x []|].
    intros Ht x [<-|Hx]; apply andb_true_iff in Ht; destruct Ht as [Hy Ht'];
      [exact Hy | now apply IH]. }
  assert (Happ : forall t u, list_ascii_of_string (t ++ u) =
                             (list_ascii_of_string t ++ list_ascii_of_string u)%list).
  { induction t as [|y t IH]; intros u; cbn; [reflexivity | now rewrite IH]. }
  destruct E as [-> | ->]; rewrite !Happ in Hin; repeat (apply in_app_or in Hin;
    destruct Hin as [Hin|Hin]); eauto.
  cbn in Hin. destruct Hin as [<-|[]]. now right.
Qed.

(** A text with a character that is neither a digit nor the dot (a letter,
    a sign, a space, a comma) is ignored in both modes: the field keeps its
    value and [onAmountInputChange] is not called. *)
Theorem foreign_character_ignored (disableDecimal : bool) (value : string)
    (c : ascii) (w : World) :
  In c (list_ascii_of_string value) ->
  isDigit c = false ->
  c <> "."%char ->
  dispatch (disableDecimal, value) w = w.
Proof.
  intros Hin Hdigit Hdot.
  assert (Hdec : testDecimal value = false).
  { destruct (testDecimal value) eqn:E; [|reflexivity].
    destruct (testDecimal_chars value E c Hin) as [H|H]; congruence. }
  assert (Hint : testInteger value = false).
  { destruct (testInteger value) eqn:E; [|reflexivity].
    apply testInteger_decimal in E. congruence. }
  assert (Hne : String.eqb value "" = false)
    by (destruct value; [destruct Hin | reflexivity]).
  unfold dispatch, handleInputAmount. cbn [fst snd].
  rewrite Hdec, Hint, Hne. cbn [orb].
  destruct disableDecimal; unfold useEffect; cbn [st];
    rewrite String.eqb_refl; now destruct w.
Qed.

Lemma foreign_character_ignored_witness :
  dispatch (false, "1,5") (run [(false, "1")] mount) = run [(false, "1")] mount.
Proof.
  apply (foreign_character_ignored false "1,5" ","%char (run [(false, "1")] mount)).
  - cbn. tauto.
  - reflexivity.
  - discriminate.
Defined.

Lemma noRepeat_snoc (xs : list string) (v : string) :
  noRepeat xs -> last xs "?" <> v -> noRepeat (xs ++ [v]).
Proof.
  induction xs as [|x xs IH]; [intros _ _; exact I|].
  destruct xs as [|y zs].
  - intros _ Hlast. cbn. split; [exact Hlast | exact I].
  - intros [Hxy Hrest] Hlast.
    change (x <> y /\ noRepeat ((y :: zs) ++ [v])). split; [exact Hxy|].
    apply IH; [exact Hrest | exact Hlast].
Qed.

Lemma handleInputAmount_cases (d : bool) (value : string) (s : State) :
  handleInputAmount d value s = s \/
  handleInputAmount d value s = {| inputValue := value; validAmount := value |} /\
  testDecimal value = true /\
  (d = true -> value = "" \/ testInteger value = true).
Proof.
  unfold handleInputAmount. destruct d.
  - destruct (testInteger value) eqn:E; cbn [orb].
    + right. split; [reflexivity | split; [now apply testInteger_decimal | auto]].
    + destruct (String.eqb_spec value "") as [->|_]; [|now left].
      right. split; [reflexivity | split; [reflexivity | auto]].
  - destruct (testDecimal value) eqn:E; cbn [orb].
    + right. split; [reflexivity | split; [reflexivity | discriminate]].
    + destruct (String.eqb_spec value "") as [->|_]; [discriminate E | now left].
Qed.

Lemma dispatch_consistent (e : bool * string) (w : World) :
  Consistent w -> Consistent (dispatch e w).
Proof.
  intros (Heq & Hok & Hlast & Hne & Hall & Hrep).
  unfold dispatch.
  destruct (handleInputAmount_cases (fst e) (snd e) (st w)) as [->|(-> & Hdec & _)].
  - unfold useEffect. cbn [st]. rewrite String.eqb_refl.
    repeat split; assumption.
  - unfold useEffect. cbn [st validAmount].
    destruct (String.eqb_spec (validAmount (st w)) (snd e)) as [E|E].
    + repeat split; cbn [st reported inputValue validAmount]; try assumption.
      now rewrite Hlast.
    + repeat split; cbn [st reported inputValue validAmount].
      * assumption.
      * apply last_last.
      * intros H. now apply app_eq_nil in H.
      * apply Forall_app. split; [assumption | now constructor].
      * apply noRepeat_snoc; [assumption | now rewrite Hlast].
Qed.

(** After any sequence of change events, in any mix of the two modes, the
    text shown is the amount kept, it has the shape of an amount, it is the
    value [onAmountInputChange] was last called with, every value ever
    reported has that shape, and no value is reported twice in a row. *)
Theorem run_consistent (es : list (bool * string)) :
  Consistent (run es mount).
Proof.
  unfold run.
  assert (H : forall w, Consistent w ->
              Consistent (fold_left (fun w e => dispatch e w) es w)).
  { induction es as [|e es IH]; intros w Hw; [exact Hw|].
    cbn [fold_left]. apply IH. now apply dispatch_consistent. }
  apply H. repeat split; try reflexivity; try discriminate.
  now repeat constructor.
Qed.

Lemma dispatch_whole (e : bool * string) (w : World) :
  fst e = true ->
  Forall (fun v => v = "" \/ testInteger v = true) (validAmount (st w) :: reported w) ->
  Forall (fun v => v = "" \/ testInteger v = true)
    (validAmount (st (dispatch e w)) :: reported (dispatch e w)).
Proof.
  intros Hmode Hall. inversion Hall as [|v vs Hv Hvs]; subst.
  unfold dispatch.
  destruct (handleInputAmount_cases (fst e) (snd e) (st w)) as [->|(-> & _ & Hint)].
  - unfold useEffect. cbn [st]. rewrite String.eqb_refl. now constructor.
  - specialize (Hint Hmode). unfold useEffect. cbn [st validAmount].
    destruct (String.eqb (validAmount (st w)) (snd e)); cbn [st reported validAmount].
    + now constructor.
    + constructor; [exact Hint|]. apply Forall_app. split; [exact Hvs | now constructor].
Qed.

(** When every event comes in whole-number mode, the amount kept and every
    value handed to [onAmountInputChange] is empty or the numeral of a
    positive integer. *)
Theorem run_whole_numbers (es : list (bool * string)) :
  Forall (fun e => fst e = true) es ->
  Forall (fun v => v = "" \/ exists n : Z, (0 < n)%Z /\ v = string_of_number n)
    (validAmount (st (run es mount)) :: reported (run es mount)).
Proof.
  intros Hes.
  assert (H : forall w,
              Forall (fun v => v = "" \/ testInteger v = true)
                (validAmount (st w) :: reported w) ->
              Forall (fun v => v = "" \/ testInteger v = true)
                (validAmount (st (fold_left (fun w e => dispatch e w) es w))
                 :: reported (fold_left (fun w e => dispatch e w) es w))).
  { induction Hes as [|e es He Hes IH]; intros w Hw; [exact Hw|].
    cbn [fold_left]. apply IH. now apply dispatch_whole. }
  unfold run. eapply Forall_impl; [|apply H].
  - intros v [->|Hv]; [now left | right; now apply testInteger_numeral].
  - repeat constructor.
Qed.

Lemma run_whole_numbers_witness :
  Forall (fun v => v = "" \/ exists n : Z, (0 < n)%Z /\ v = string_of_number n)
    (validAmount (st (run [(true, "4"); (true, "42"); (true, "042")] mount))
     :: reported (run [(true, "4"); (true, "42"); (true, "042")] mount)).
Proof.
  apply (run_whole_numbers [(true, "4"); (true, "42"); (true, "042")]).
  repeat constructor.
Defined.

End AmountFacts.

(** ** AddressInput: the calls of one event *)

Section AddressFacts.

Variable env : Env.

Lemma lastReported_from (calls : list Call) (acc : option string) :
  fold_left (fun acc c =>
               match c with
               | CallOnAddressInputChange params => Some (ch_address params)
               | _ => acc
               end) calls acc =
  match lastReported calls with
  | Some a => Some a
  | None => acc
  end.
Proof.
  unfold lastReported. revert acc.
  induction calls as [|c calls IH]; intros acc; [reflexivity|].
  cbn [fold_left]. rewrite IH. symmetry. rewrite IH.
  destruct (fold_left _ calls None); [reflexivity|]. now destruct c.
Qed.

Lemma lastReported_app (xs ys : list Call) :
  lastReported (xs ++ ys) =
  match lastReported ys with
  | Some a => Some a
  | None => lastReported xs
  end.
Proof.
  unfold lastReported at 1. rewrite fold_left_app. apply lastReported_from.
Qed.

Lemma handlerCalls_unreported (text : string) :
  lastReported (handlerCalls env text) = None.
Proof.
  unfold handlerCalls.
  destruct (getSatsName env (toLowerCase env text)) as [sn|]; [|reflexivity].
  now destruct (includes (SUPPORTED_DOMAINS env) (suffix sn)).
Qed.

Lemma useEffect_trace_exact (r : State) (w : World) :
  trace (exec (useEffect r) w) = (trace w ++ effectCalls r (st w))%list.
Proof.
  unfold exec, useEffect, effectCalls.
  destruct (String.eqb (validAddress r) (validAddress (st w)));
    [now rewrite app_nil_r | reflexivity].
Qed.

Lemma keystroke_trace (text : string) (w : World) :
  let w' := exec (dispatch env (Keystroke text)) w in
  trace w' = (trace w ++ handlerCalls env text ++ effectCalls (st w) (st w'))%list.
Proof.
  cbv zeta. rewrite dispatch_keystroke, useEffect_trace_exact, useEffect_st.
  rewrite app_assoc. f_equal.
  unfold exec, countKeystroke, handlerCalls.
  destruct (getSatsName env (toLowerCase env text)) as [sn|] eqn:Hname.
  - destruct (includes (SUPPORTED_DOMAINS env) (suffix sn)) eqn:Hsup.
    + now rewrite (handleInputAddress_supported env _ _ sn _ Hname Hsup).
    + rewrite (handleInputAddress_unsupported env _ _ sn _ Hname Hsup).
      cbn [snd trace]. now rewrite app_nil_r.
  - now rewrite (handleInputAddress_address env _ _ _ Hname).
Qed.

Lemma settle_world (l : Lookup) (p : Settled (option Inscription)) (w : World) :
  inflight (exec (settle env l p) w) = inflight w /\
  trace (exec (settle env l p) w) = trace w /\
  searching (st (exec (settle env l p) w)) = false.
Proof.
  unfold exec. destruct p as [[insc|]|message].
  - destruct (Z.lt_ge_cases (utxoConfirmation insc) (SAFE_DOMAIN_CONFIRMATION env)).
    + rewrite settle_unconfirmed by assumption. repeat split.
    + rewrite settle_confirmed by assumption. repeat split.
  - rewrite settle_notFound. repeat split.
  - rewrite settle_rejected. repeat split.
Qed.

Lemma settles_world (i : nat) (l : Lookup) (p : Settled (option Inscription))
    (w : World) :
  nth_error (inflight w) i = Some l ->
  let w' := exec (dispatch env (Settles i p)) w in
  inflight w' = removeAt i (inflight w) /\
  trace w' = (trace w ++ effectCalls (st w) (st w'))%list /\
  searching (st w') = false.
Proof.
  intros Hl. cbv zeta. rewrite (dispatch_settles env i l p w Hl).
  rewrite useEffect_inflight, useEffect_trace_exact, useEffect_st.
  set (v := {| st := st w; inflight := removeAt i (inflight w);
               trace := trace w; keystrokes := keystrokes w |}).
  destruct (settle_world l p v) as (Hin & Htr & Hs).
  rewrite Hin, Htr, Hs. repeat split.
Qed.

Lemma settles_missing (i : nat) (p : Settled (option Inscription)) (w : World) :
  nth_error (inflight w) i = None ->
  exec (dispatch env (Settles i p)) w = w.
Proof.
  intros Hl. unfold dispatch, exec, bind, getState, takeLookup, ret, useEffect.
  rewrite Hl. cbn [snd st]. rewrite String.eqb_refl. cbn [snd].
  assert (Hsame : forall (xs : list Lookup) n, nth_error xs n = None -> removeAt n xs = xs).
  { induction xs as [|x xs IH]; intros [|n] H; cbn in *; try reflexivity;
      [discriminate | now rewrite IH]. }
  rewrite (Hsame _ _ Hl). now destruct w.
Qed.

End AddressFacts.

(** ** AddressInput: single events *)

Section AddressEvents.

Variable env : Env.

(** A text that is not a name and that the validator accepts becomes the
    valid address as typed: the validator is asked once, with the text as
    typed, the resolver is not asked and no lookup starts, every other cell
    is neutral, and [onAddressInputChange] is called, with the text, no
    domain and no record, unless the text was the valid address already. *)
Theorem valid_address_keystroke (text : string) (w : World) :
  getSatsName env (toLowerCase env text) = None ->
  isValid env text = true ->
  let w' := exec (dispatch env (Keystroke text)) w in
  st w' = withValidAddress text (cleared text (searching (st w))) /\
  inflight w' = inflight w /\
  callsSince w w' =
    CallIsValid text ::
    (if String.eqb (validAddress (st w)) text then []
     else [CallOnAddressInputChange
             {| ch_address := text; ch_domain := ""; ch_inscription := None |}]).
Proof.
  intros Hname Hvalid. cbv zeta.
  assert (Hst : st (exec (dispatch env (Keystroke text)) w) =
                withValidAddress text (cleared text (searching (st w))))
    by (now rewrite keystroke_st, Hname, Hvalid).
  split; [exact Hst | split].
  - rewrite keystroke_inflight, Hname. apply app_nil_r.
  - apply callsSince_app. pose proof (keystroke_trace env text w) as Htr.
    cbv zeta in Htr. rewrite Htr, Hst. unfold handlerCalls. rewrite Hname.
    reflexivity.
Qed.

(** A text that is not a name and that the validator rejects sets the
    format error and nothing else: the resolver is not asked, and
    [onAddressInputChange] is called, with the empty address, exactly when
    there was a valid address before. *)
Theorem invalid_address_keystroke (text : string) (w : World) :
  getSatsName env (toLowerCase env text) = None ->
  isValid env text = false ->
  let w' := exec (dispatch env (Keystroke text)) w in
  st w' = withFormatError "Recipient address is invalid"
            (cleared text (searching (st w))) /\
  inflight w' = inflight w /\
  callsSince w w' =
    CallIsValid text ::
    (if String.eqb (validAddress (st w)) "" then []
     else [CallOnAddressInputChange
             {| ch_address := ""; ch_domain := ""; ch_inscription := None |}]).
Proof.
  intros Hname Hvalid. cbv zeta.
  assert (Hst : st (exec (dispatch env (Keystroke text)) w) =
                withFormatError "Recipient address is invalid"
                  (cleared text (searching (st w))))
    by (now rewrite keystroke_st, Hname, Hvalid).
  split; [exact Hst | split].
  - rewrite keystroke_inflight, Hname. apply app_nil_r.
  - apply callsSince_app. pose proof (keystroke_trace env text w) as Htr.
    cbv zeta in Htr. rewrite Htr, Hst. unfold handlerCalls. rewrite Hname.
    reflexivity.
Qed.

(** Handling the same text a second time leaves the state as the first time
    left it and does not call [onAddressInputChange]; the validator or the
    resolver is asked again, nothing is remembered from the first time. *)
Theorem keystroke_repeated (text : string) (w : World) :
  let w1 := exec (dispatch env (Keystroke text)) w in
  let w2 := exec (dispatch env (Keystroke text)) w1 in
  st w2 = st w1 /\
  callsSince w1 w2 = handlerCalls env text /\
  length (inflight w2) - length (inflight w1) =
    length (inflight w1) - length (inflight w).
Proof.
  cbv zeta.
  assert (Hst : st (exec (dispatch env (Keystroke text))
                      (exec (dispatch env (Keystroke text)) w)) =
                st (exec (dispatch env (Keystroke text)) w)).
  { rewrite (keystroke_st env text (exec (dispatch env (Keystroke text)) w)).
    rewrite (keystroke_st env text w).
    destruct (getSatsName env (toLowerCase env text)) as [sn|].
    - now destruct (includes (SUPPORTED_DOMAINS env) (suffix sn)).
    - now destruct (isValid env text). }
  split; [exact Hst | split].
  - apply callsSince_app.
    pose proof (keystroke_trace env text (exec (dispatch env (Keystroke text)) w)) as Htr.
    cbv zeta in Htr. rewrite Htr, Hst. unfold effectCalls.
    now rewrite String.eqb_refl, app_nil_r.
  - rewrite !keystroke_inflight, !length_app.
    destruct (getSatsName env (toLowerCase env text)) as [sn|];
      [destruct (includes (SUPPORTED_DOMAINS env) (suffix sn))|];
      cbn [length]; lia.
Qed.

(** When a supported name is typed and its lookup settles before anything
    else happens, the state that results depends on the text and on the
    result only, not on what was typed, shown or in flight before; typing
    the same name again with the same result therefore gives the same
    state. *)
Theorem resolution_history_free (text : string) (sn : SatsName)
    (p : Settled (option Inscription)) (w v : World) :
  getSatsName env (toLowerCase env text) = Some sn ->
  includes (SUPPORTED_DOMAINS env) (suffix sn) = true ->
  st (exec (dispatch env (Settles (length (inflight w)) p))
        (exec (dispatch env (Keystroke text)) w)) =
  st (exec (dispatch env (Settles (length (inflight v)) p))
        (exec (dispatch env (Keystroke text)) v)).
Proof.
  intros Hname Hsup.
  now rewrite !(keystroke_settle_st env text sn p _ Hname Hsup).
Qed.

End AddressEvents.

Lemma valid_address_keystroke_witness :
  let w := Sample.after 3 [Keystroke "alice.sats"] in
  let w' := exec (dispatch (Sample.env 3) (Keystroke "bc1qabc")) w in
  st w' = withValidAddress "bc1qabc" (cleared "bc1qabc" true) /\
  inflight w' = inflight w /\
  callsSince w w' =
    [CallIsValid "bc1qabc";
     CallOnAddressInputChange
       {| ch_address := "bc1qabc"; ch_domain := ""; ch_inscription := None |}].
Proof.
  apply (valid_address_keystroke (Sample.env 3) "bc1qabc" (Sample.after 3 [Keystroke "alice.sats"]));
    reflexivity.
Defined.

Lemma invalid_address_keystroke_witness :
  let w := Sample.after 3 [Keystroke "bc1qabc"] in
  let w' := exec (dispatch (Sample.env 3) (Keystroke "bc1")) w in
  st w' = withFormatError "Recipient address is invalid" (cleared "bc1" false) /\
  inflight w' = inflight w /\
  callsSince w w' =
    [CallIsValid "bc1";
     CallOnAddressInputChange
       {| ch_address := ""; ch_domain := ""; ch_inscription := None |}].
Proof.
  apply (invalid_address_keystroke (Sample.env 3) "bc1" (Sample.after 3 [Keystroke "bc1qabc"]));
    reflexivity.
Defined.

Lemma keystroke_repeated_example :
  let w1 := Sample.after 3 [Keystroke "alice.sats"] in
  let w2 := exec (dispatch (Sample.env 3) (Keystroke "alice.sats")) w1 in
  st w2 = st w1 /\
  callsSince w1 w2 = [CallQueryDomainInfo "alice.sats"] /\
  length (inflight w2) = 2.
Proof.
  vm_compute. repeat split.
Qed.

Lemma resolution_history_free_witness :
  let found := Fulfilled (Some (Sample.record "bc1qabc" 5)) in
  let v := Sample.after 3 [Keystroke "bob.sats"; Settles 0 (Fulfilled None);
                           Keystroke "bc1qxyz"] in
  st (exec (dispatch (Sample.env 3) (Settles 0 found))
        (exec (dispatch (Sample.env 3) (Keystroke "alice.sats")) (mount "" ""))) =
  st (exec (dispatch (Sample.env 3) (Settles 0 found))
        (exec (dispatch (Sample.env 3) (Keystroke "alice.sats")) v)).
Proof.
  apply (resolution_history_free (Sample.env 3) "alice.sats"
           {| label := "alice"; suffix := "sats" |}
           (Fulfilled (Some (Sample.record "bc1qabc" 5))) (mount "" "")
           (Sample.after 3 [Keystroke "bob.sats"; Settles 0 (Fulfilled None);
                            Keystroke "bc1qxyz"])); reflexivity.
Defined.

(** ** AddressInput: what holds after every sequence of events *)

Section AddressRuns.

Variable env : Env.

Lemma run_cons (e : Event) (es : list Event) (w : World) :
  exec (run env (e :: es)) w = exec (run env es) (exec (dispatch env e) w).
Proof.
  cbn [run]. unfold exec, bind. now destruct (dispatch env e w).
Qed.

Lemma Forall_removeAt {A : Type} (P : A -> Prop) (i : nat) (xs : list A) :
  Forall P xs -> Forall P (removeAt i xs).
Proof.
  intros H. revert i. induction H as [|x xs Hx Hxs IH]; intros [|i]; cbn;
    try constructor; auto.
Qed.

Lemma effectCalls_reported (r s : State) (before : list Call) :
  lastReported before = Some (validAddress r) ->
  lastReported (before ++ effectCalls r s) = Some (validAddress s).
Proof.
  intros H. rewrite lastReported_app. unfold effectCalls.
  destruct (String.eqb_spec (validAddress r) (validAddress s)) as [E|_].
  - cbn. now rewrite H, E.
  - reflexivity.
Qed.

Lemma effectCalls_supported (r s : State) :
  Forall (callForSupportedName env) (effectCalls r s).
Proof.
  unfold effectCalls. destruct (String.eqb _ _); repeat constructor.
Qed.

Lemma keystroke_coherent (text : string) (w : World) :
  Coherent env w -> Coherent env (exec (dispatch env (Keystroke text)) w).
Proof.
  intros (Hrep & Hfl & Hname & Htr).
  pose proof (keystroke_trace env text w) as Htrace. cbv zeta in Htrace.
  pose proof (keystroke_st env text w) as Hst.
  pose proof (keystroke_inflight env text w) as Hin.
  unfold Coherent. rewrite Htrace, Hin. repeat apply conj.
  - rewrite app_assoc. apply effectCalls_reported.
    rewrite lastReported_app, handlerCalls_unreported. exact Hrep.
  - apply Forall_app. split; [exact Hfl|].
    destruct (getSatsName env (toLowerCase env text)) as [sn|] eqn:En;
      [|constructor].
    destruct (includes (SUPPORTED_DOMAINS env) (suffix sn)) eqn:Es;
      constructor; [|constructor].
    exists sn. cbn [l_inputAddress l_suffix]. auto.
  - rewrite Hst. unfold nameBacked.
    destruct (getSatsName env (toLowerCase env text)) as [sn|].
    + destruct (includes (SUPPORTED_DOMAINS env) (suffix sn)); cbn;
        intros H; now elim H.
    + destruct (isValid env text); cbn; intros H; now elim H.
  - apply Forall_app. split; [exact Htr|]. apply Forall_app.
    split; [|apply effectCalls_supported]. unfold handlerCalls.
    destruct (getSatsName env (toLowerCase env text)) as [sn|] eqn:En;
      [|repeat constructor].
    destruct (includes (SUPPORTED_DOMAINS env) (suffix sn)) eqn:Es;
      constructor; [|constructor].
    cbn. exists text, sn. auto.
Qed.

Lemma settles_coherent (i : nat) (p : Settled (option Inscription)) (w : World) :
  Coherent env w -> Coherent env (exec (dispatch env (Settles i p)) w).
Proof.
  intros Hw. destruct (nth_error (inflight w) i) as [l|] eqn:Hl;
    [|now rewrite settles_missing].
  destruct Hw as (Hrep & Hfl & Hname & Htr).
  destruct (settles_world env i l p w Hl) as (Hin & Htrace & _).
  pose proof (settles_st env i l p w Hl) as Hst.
  unfold Coherent. rewrite Htrace, Hin. repeat apply conj.
  - now apply effectCalls_reported.
  - now apply Forall_removeAt.
  - rewrite Hst. unfold nameBacked. destruct p as [[insc|]|message].
    + destruct (Z.lt_ge_cases (utxoConfirmation insc) (SAFE_DOMAIN_CONFIRMATION env)).
      * rewrite settle_unconfirmed by assumption. cbn. intros H'. now elim H'.
      * rewrite settle_confirmed by assumption. cbn. intros _.
        apply nth_error_In in Hl.
        pose proof (proj1 (Forall_forall _ _) Hfl l Hl) as (sn & _ & _ & Hsup).
        split; [exact Hsup|]. exists insc. auto.
    + rewrite settle_notFound. cbn. intros H'. now elim H'.
    + rewrite settle_rejected. exact Hname.
  - apply Forall_app. split; [exact Htr | apply effectCalls_supported].
Qed.

Lemma run_coherent (es : list Event) (w : World) :
  Coherent env w -> Coherent env (exec (run env es) w).
Proof.
  revert w. induction es as [|e es IH]; intros w Hw; [exact Hw|].
  rewrite run_cons. apply IH. destruct e as [text|i p].
  - now apply keystroke_coherent.
  - now apply settles_coherent.
Qed.

Lemma mount_coherent (address domain : string) :
  Coherent env (mount address domain).
Proof.
  unfold Coherent, mount. cbn [st inflight trace]. repeat apply conj.
  - reflexivity.
  - constructor.
  - intros H. now elim H.
  - repeat constructor.
Qed.

(** Whatever is typed and however the lookups settle, the address that
    [onAddressInputChange] was last called with is the valid address of the
    component: the parent is never left with an address the component has
    dropped or replaced. *)
Theorem reported_address_current (es : list Event) (address domain : string) :
  let w := exec (run env es) (mount address domain) in
  lastReported (trace w) = Some (validAddress (st w)).
Proof.
  exact (proj1 (run_coherent es _ (mount_coherent address domain))).
Qed.

(** The note "Name recognized and resolved" is shown only with a supported
    suffix and next to a record that has enough confirmations and whose
    address is both the valid and the parsed address. *)
Theorem recognised_name_backed (es : list Event) (address domain : string) :
  let w := exec (run env es) (mount address domain) in
  parseName (st w) <> "" ->
  includes (SUPPORTED_DOMAINS env) (parseName (st w)) = true /\
  exists insc,
    inscription (st w) = Some insc /\
    (SAFE_DOMAIN_CONFIRMATION env <= utxoConfirmation insc)%Z /\
    validAddress (st w) = addressOrEmpty insc /\
    parseAddress (st w) = addressOrEmpty insc.
Proof.
  exact (proj1 (proj2 (proj2
           (run_coherent es _ (mount_coherent address domain))))).
Qed.

(** The resolver is only ever asked for the encoding of a text whose
    lower-casing parses as a name with a supported suffix. *)
Theorem resolver_asked_for_supported_names (es : list Event)
    (address domain : string) (encodedName : string) :
  let w := exec (run env es) (mount address domain) in
  In (CallQueryDomainInfo encodedName) (trace w) ->
  exists text sn,
    encodedName = encodeURIComponent env text /\
    getSatsName env (toLowerCase env text) = Some sn /\
    includes (SUPPORTED_DOMAINS env) (suffix sn) = true.
Proof.
  cbv zeta. intros Hin.
  pose proof (proj2 (proj2 (proj2
                (run_coherent es _ (mount_coherent address domain))))) as H.
  exact (proj1 (Forall_forall _ _) H _ Hin).
Qed.

End AddressRuns.

Lemma recognised_name_backed_witness :
  let w := Sample.after 3 [Keystroke "alice.sats";
                           Settles 0 (Fulfilled (Some (Sample.record "bc1qabc" 5)));
                           Settles 0 (Rejected "late")] in
  includes ["sats"; "unicash"; "btc"] (parseName (st w)) = true /\
  exists insc,
    inscription (st w) = Some insc /\
    (3 <= utxoConfirmation insc)%Z /\
    validAddress (st w) = addressOrEmpty insc /\
    parseAddress (st w) = addressOrEmpty insc.
Proof.
  apply (recognised_name_backed (Sample.env 3)
           [Keystroke "alice.sats";
            Settles 0 (Fulfilled (Some (Sample.record "bc1qabc" 5)));
            Settles 0 (Rejected "late")] "" "").
  vm_compute. discriminate.
Defined.

Lemma resolver_asked_for_supported_names_witness :
  exists text sn,
    "Alice.Sats" = Sample.encodeURIComponent text /\
    Sample.getSatsName (Sample.toLowerCase text) = Some sn /\
    includes ["sats"; "unicash"; "btc"] (suffix sn) = true.
Proof.
  apply (resolver_asked_for_supported_names (Sample.env 3)
           [Keystroke "alice.unknown"; Keystroke "Alice.Sats"; Keystroke "bc1qabc"]
           "" "" "Alice.Sats").
  vm_compute. tauto.
Defined.

(** ** AddressInput: results that report nothing *)

(** When a supported name is typed and its lookup settles before any other
    event without an address to use (it fails, finds nothing, finds a record
    that lacks confirmations, or finds a record without address), the valid
    address stays empty and [onAddressInputChange] is not called. *)
Theorem resolution_without_address_silent (env : Env) (text : string)
    (sn : SatsName) (p : Settled (option Inscription)) (w : World) :
  getSatsName env (toLowerCase env text) = Some sn ->
  includes (SUPPORTED_DOMAINS env) (suffix sn) = true ->
  (forall insc, p = Fulfilled (Some insc) ->
     (utxoConfirmation insc < SAFE_DOMAIN_CONFIRMATION env)%Z \/
     addressOrEmpty insc = "") ->
  let w1 := exec (dispatch env (Keystroke text)) w in
  let w2 := exec (dispatch env (Settles (length (inflight w)) p)) w1 in
  callsSince w1 w2 = [] /\ validAddress (st w2) = "".
Proof.
  intros Hname Hsup Hp. cbv zeta.
  pose proof (keystroke_lookup env text sn w Hname Hsup) as Hl.
  assert (Hv1 : validAddress (st (exec (dispatch env (Keystroke text)) w)) = "")
    by (now rewrite keystroke_st, Hname, Hsup).
  assert (Hv2 : validAddress
                  (st (exec (dispatch env (Settles (length (inflight w)) p))
                         (exec (dispatch env (Keystroke text)) w))) = "").
  { rewrite (keystroke_settle_st env text sn p w Hname Hsup).
    unfold resolvedState. destruct p as [[insc|]|message]; try reflexivity.
    destruct (Z.ltb_spec (utxoConfirmation insc) (SAFE_DOMAIN_CONFIRMATION env));
      [reflexivity|].
    destruct (Hp insc eq_refl) as [H'|H']; [lia | exact H']. }
  split; [|exact Hv2].
  apply callsSince_app.
  destruct (settles_world env _ _ p _ Hl) as (_ & Htr & _).
  rewrite Htr. unfold effectCalls. rewrite Hv1, Hv2. cbn. now rewrite app_nil_r.
Qed.

Lemma resolution_without_address_silent_witness :
  let w1 := exec (dispatch (Sample.env 3) (Keystroke "alice.sats"))
              (Sample.after 3 [Keystroke "bc1qabc"]) in
  let w2 := exec (dispatch (Sample.env 3) (Settles 0 (Rejected "timeout"))) w1 in
  callsSince w1 w2 = [] /\ validAddress (st w2) = "".
Proof.
  apply (resolution_without_address_silent (Sample.env 3) "alice.sats"
           {| label := "alice"; suffix := "sats" |} (Rejected "timeout")
           (Sample.after 3 [Keystroke "bc1qabc"]));
    [reflexivity | reflexivity | discriminate].
Defined.

(** ** PasswordInput *)

Module PasswordFacts.
Import Password.

(** Exactly one eye icon is on screen, and clicking it [n] times shows the
    password in clear exactly when [n] is odd: starting from the hidden
    state, the field is of type password after an even number of clicks and
    of type text after an odd number. *)
Theorem clicks_parity (n : nat) :
  (forall t, length (icons t) = 1) /\
  clicks n TypePassword = (if Nat.even n then TypePassword else TypeText) /\
  clicks n TypeText = (if Nat.even n then TypeText else TypePassword).
Proof.
  split; [intros []; reflexivity|].
  induction n as [|n [IHp IHt]]; [split; reflexivity|].
  rewrite Nat.even_succ, <- Nat.negb_even. cbn [clicks].
  change (clickRendered TypePassword) with TypeText.
  change (clickRendered TypeText) with TypePassword.
  rewrite IHp, IHt. destruct (Nat.even n); split; reflexivity.
Qed.

End PasswordFacts.
